(** * Truck tracker backend (backend_api.py): a shallow embedding

    The development follows the Python module top to bottom:
    - [Py]: the Python values and string operations the module relies on
      (truthiness, [in], [str.split], [str.strip], [dict.get]);
    - [determine_status]: the recency classifier;
    - [Sql]: the two SELECT statements, read as list programs over the rows
      of [public.tracking_data2];
    - [get_truck_locations], [get_trucks], [get_truck_history]: the snapshot
      and history paths with their exception handlers;
    - [websocket_endpoint]: the live loop, one cycle at a time, over a trace
      of what the environment does in each cycle.

    What the module leaves to its libraries (PostgreSQL's date input,
    [datetime.fromtimestamp(..).strftime], [str] of a date or of an
    exception) is the class [Runtime]; a concrete instance that keeps
    server time in UTC is given for evaluation. *)

From Stdlib Require Import ZArith QArith String Ascii List OrdersEx Floats.PrimFloat.
From stdpp Require Import gmap strings list sorting.

#[local] Set Warnings "-register-all".
#[local] Open Scope string_scope.
#[local] Open Scope list_scope.
#[local] Open Scope Z_scope.

(* ===================================================================== *)
(** ** Python values *)
(* ===================================================================== *)

(** A value as [json.loads] builds it, which is also what a filter variable
    of the live loop can hold: the query parameters start as [None] or a
    [str], and a client message can put any JSON value there. *)
Inductive pyval : Type :=
  | PNone
  | PBool (b : bool)
  | PInt (z : Z)
  | PFloat (f : PrimFloat.float)
  | PStr (s : string)
  | PList (l : list pyval)
  | PDict (d : gmap string pyval).

(** The exceptions the module can meet.  [HTTPException] is the one it
    raises itself; the others come from the interpreter, the JSON decoder,
    the socket and the database driver (psycopg's [OperationalError] when
    the server cannot be reached, [UndefinedFunction] when an operator has
    no instance at the parameter's type, [InvalidDatetimeFormat] when a
    string is no date, [ProgrammingError] when a value cannot be sent,
    [DataError] when a string to send holds a NUL byte or a value received
    does not fit its Python type). *)
Inductive exn : Type :=
  | TypeError
  | AttributeError
  | KeyError
  | ValueError
  | JSONDecodeError
  | WebSocketDisconnect
  | OperationalError (msg : string)
  | UndefinedFunction
  | InvalidDatetimeFormat
  | ProgrammingError
  | DataError
  | HTTPException (status_code : Z) (detail : string).

Inductive result (A : Type) : Type :=
  | Ok (a : A)
  | Raise (e : exn).
Arguments Ok {A} a.
Arguments Raise {A} e.

Definition bind {A B : Type} (m : result A) (k : A → result B) : result B :=
  match m with
  | Ok a => k a
  | Raise e => Raise e
  end.

#[global] Instance result_bind : MBind result := λ A B k m, bind m k.
#[global] Instance result_ret : MRet result := λ A a, Ok a.

(** A comprehension or a [for] loop whose body can raise: the first
    exception ends it. *)
Fixpoint traverse {A B : Type} (f : A → result B) (l : list A) : result (list B) :=
  match l with
  | [] => Ok []
  | x :: l' => y ← f x; ys ← traverse f l'; Ok (y :: ys)
  end.

Module Py.

(** [bool(v)]. *)
Definition truthy (v : pyval) : bool :=
  match v with
  | PNone => false
  | PBool b => b
  | PInt z => negb (Z.eqb z 0)
  | PFloat f => negb (PrimFloat.eqb f 0%float)
  | PStr s => negb (String.eqb s "")
  | PList l => match l with [] => false | _ :: _ => true end
  | PDict d => negb (bool_decide (d = ∅))
  end.

(** [needle in s] on two strings: [needle] occurs in [s]. *)
Fixpoint str_contains (needle s : string) : bool :=
  String.prefix needle s ||
  match s with
  | EmptyString => false
  | String _ s' => str_contains needle s'
  end.

Definition is_str (s : string) (v : pyval) : bool :=
  match v with
  | PStr t => String.eqb t s
  | _ => false
  end.

(** ['s' in v] for a string literal [s]: substring of a string, element of a
    list, key of a dict; [TypeError] on anything else. *)
Definition contains (s : string) (v : pyval) : result bool :=
  match v with
  | PStr t => Ok (str_contains s t)
  | PList l => Ok (existsb (is_str s) l)
  | PDict d => Ok (bool_decide (is_Some (d !! s)))
  | PNone | PBool _ | PInt _ | PFloat _ => Raise TypeError
  end.

(** [v['s']] for a string literal [s]: only a dict can be indexed by a
    string. *)
Definition getitem (v : pyval) (s : string) : result pyval :=
  match v with
  | PDict d => match d !! s with Some x => Ok x | None => Raise KeyError end
  | _ => Raise TypeError
  end.

(** [v.get('s', dflt)]: only a dict has the method. *)
Definition get (v : pyval) (s : string) (dflt : pyval) : result pyval :=
  match v with
  | PDict d => Ok (default dflt (d !! s))
  | _ => Raise AttributeError
  end.

(** [str.isspace] on the code points below 256. *)
Definition isspace (c : ascii) : bool :=
  let n := N_of_ascii c in
  ((9 <=? n) && (n <=? 13) || (28 <=? n) && (n <=? 32) || (n =? 133) || (n =? 160))%N.

Fixpoint lstrip (s : string) : string :=
  match s with
  | EmptyString => EmptyString
  | String c s' => if isspace c then lstrip s' else s
  end.

Fixpoint rstrip (s : string) : string :=
  match s with
  | EmptyString => EmptyString
  | String c s' =>
      match rstrip s' with
      | EmptyString => if isspace c then EmptyString else String c EmptyString
      | r => String c r
      end
  end.

(** [s.strip()]. *)
Definition strip (s : string) : string := rstrip (lstrip s).

(** [s.split(sep)] for a one-character separator: never empty, the pieces
    between the separators in order. *)
Fixpoint split (sep : ascii) (s : string) : list string :=
  match s with
  | EmptyString => [EmptyString]
  | String c s' =>
      if Ascii.eqb c sep then EmptyString :: split sep s'
      else match split sep s' with
           | [] => [String c EmptyString]
           | t :: ts => String c t :: ts
           end
  end.

Definition nonempty (s : string) : bool := negb (String.eqb s "").

End Py.

(* ===================================================================== *)
(** ** Status classifier *)
(* ===================================================================== *)

(** The thresholds, in hours.  [time_diff_hours] is a Python float, the
    correctly rounded quotient of two integers; both thresholds are floats
    that the rounding leaves fixed and no quotient of an integer by 3600
    lies within rounding distance of either, so comparing the exact
    rational gives the same answer as comparing the float. *)
Definition STALE_THRESHOLD_HOURS : Q := 1.
Definition IDLE_THRESHOLD_HOURS : Q := 1 # 2.

Definition Qgtb (x y : Q) : bool := negb (Qle_bool x y).

(** [current_time] is [int(time.time())], read by the caller. *)
Definition determine_status (current_time timestamp : Z) : string :=
  let time_diff_hours := (inject_Z (current_time - timestamp) / 3600)%Q in
  if Qgtb time_diff_hours STALE_THRESHOLD_HOURS then "stopped"
  else if Qgtb time_diff_hours IDLE_THRESHOLD_HOURS then "idle"
  else "moving".

(* ===================================================================== *)
(** ** What the module leaves to its libraries *)
(* ===================================================================== *)

(** A calendar date is the number of its day (day 0 is 1970-01-01); the
    order on dates is the order on day numbers. *)
Class Runtime : Type := {
  (** A string bound to [date >= %s] or [date <= %s]: the driver sends it
      untyped and PostgreSQL reads it as a [date].  [None] when either
      rejects it (the driver a NUL byte, the server text that is no
      date). *)
  date_in : string → option Z;
  (** The driver sending a Python list: the array literal the server
      receives untyped, or [None] when the list cannot be sent so (an
      element without a dumper, elements the driver sends typed, a NUL
      byte). *)
  dump_list : list pyval → option string;
  (** [datetime.fromtimestamp(ts).strftime('%Y-%m-%d %H:%M:%S')] in server
      local time; [None] when [fromtimestamp] raises (a timestamp outside
      the years [datetime] covers). *)
  strftime_local : Z → option string;
  (** [str(d)] of a [datetime.date]. *)
  str_date : Z → string;
  (** [str(e)] of an exception. *)
  str_exn : exn → string
}.

(* ===================================================================== *)
(** ** The position table and the two queries *)
(* ===================================================================== *)

(** A row of [public.tracking_data2], in the column order the snapshot
    query selects. *)
Record Row : Type := {
  car : string;
  latitude : Q;
  longitude : Q;
  timestamp : Z;
  date : Z
}.

(** The database as a call finds it: out of reach (with the exception
    [connect] raises), reached but failing when the statement is executed
    (with the exception [execute] raises), or serving the table, in its
    stored order.  No column of a stored row is NULL. *)
Inductive database : Type :=
  | Unreachable (e : exn)
  | Failing (e : exn)
  | Connected (table : list Row).

Module Sql.

(** One [AND ...] clause appended to the query, with the parameters bound
    to its placeholders. *)
Inductive cond : Type :=
  | CarIn (ids : list string)
  | CarEq (p : pyval)
  | DateGe (p : pyval)
  | DateLe (p : pyval).

(** Which variable of the caller a clause restricts. *)
Definition restricts_car (c : cond) : bool :=
  match c with CarIn _ | CarEq _ => true | DateGe _ | DateLe _ => false end.
Definition restricts_from (c : cond) : bool :=
  match c with DateGe _ => true | CarIn _ | CarEq _ | DateLe _ => false end.
Definition restricts_to (c : cond) : bool :=
  match c with DateLe _ => true | CarIn _ | CarEq _ | DateGe _ => false end.

(** [ORDER BY car, "timestamp" DESC]: [r1] may stand before [r2]. *)
Definition by_car_latest (r1 r2 : Row) : bool :=
  match String_as_OT.compare (car r1) (car r2) with
  | Lt => true
  | Eq => timestamp r2 <=? timestamp r1
  | Gt => false
  end.

(** [ORDER BY "timestamp" DESC]. *)
Definition by_latest (r1 r2 : Row) : bool := timestamp r2 <=? timestamp r1.

Section OrderBy.
Variable leb : Row → Row → bool.

Fixpoint insert_row (r : Row) (l : list Row) : list Row :=
  match l with
  | [] => [r]
  | x :: l' => if leb r x then r :: l else x :: insert_row r l'
  end.

(** The sort.  SQL leaves open in which order rows come that the ordering
    does not tell apart, and so which of several rows of a car with the
    same latest timestamp is shown; here they keep the order the table has
    them in, for every statement alike. *)
Fixpoint order_by (l : list Row) : list Row :=
  match l with
  | [] => []
  | r :: l' => insert_row r (order_by l')
  end.
End OrderBy.

Definition same_car (a : string) (r : Row) : bool := String.eqb (car r) a.

(** [SELECT DISTINCT ON (car)]: of each set of rows with the same [car],
    the first one. *)
Fixpoint distinct_on_car (l : list Row) : list Row :=
  match l with
  | [] => []
  | r :: l' => r :: List.filter (λ x, negb (same_car (car r) x)) (distinct_on_car l')
  end.

(** The latest row of vehicle [a] among the rows that [keep] accepts: the
    first one once they are ordered, if there is any. *)
Definition latest_of (keep : Row → bool) (table : list Row) (a : string) : option Row :=
  head (order_by by_car_latest (List.filter (λ r, keep r && same_car a r) table)).

(** A string the driver can send as text: PostgreSQL text holds no NUL
    byte, and the driver raises on one. *)
Fixpoint has_nul (s : string) : bool :=
  match s with
  | EmptyString => false
  | String c s' => Ascii.eqb c Ascii.zero || has_nul s'
  end.

(** The days a [datetime.date] can hold, 0001-01-01 to 9999-12-31; the
    [date] column of PostgreSQL reaches further in both directions. *)
Definition date_min : Z := -719162.
Definition date_max : Z := 2932896.

Definition loads (r : Row) : bool := (date_min <=? date r) && (date r <=? date_max).

(** [cur.fetchall()] turning the rows of a result that has the [date]
    column into Python values: a date out of range raises. *)
Definition fetchall (rows : list Row) : result (list Row) :=
  traverse (λ r, if loads r then Ok r else Raise DataError) rows.

Section Exec.
Context `{Runtime}.

(** [car = %s] with a text parameter. *)
Definition car_is (s : string) : result (Row → bool) :=
  if has_nul s then Raise DataError else Ok (same_car s).

(** [car = %s]: the column is text.  A string is compared as it is; a list
    that the driver sends as an untyped literal is compared as that text;
    the other values are sent typed and have no equality with text, or
    cannot be sent; SQL's NULL equals nothing. *)
Definition car_equals (p : pyval) : result (Row → bool) :=
  match p with
  | PStr s => car_is s
  | PList l =>
      match dump_list l with
      | Some literal => car_is literal
      | None => Raise ProgrammingError
      end
  | PNone => Ok (λ _, false)
  | PDict _ => Raise ProgrammingError
  | PBool _ | PInt _ | PFloat _ => Raise UndefinedFunction
  end.

Definition date_is (s : string) : result (option Z) :=
  match date_in s with
  | Some d => Ok (Some d)
  | None => Raise InvalidDatetimeFormat
  end.

(** The parameter of [date >= %s] and [date <= %s]: a string, or the
    literal of a list, read as a date. *)
Definition date_param (p : pyval) : result (option Z) :=
  match p with
  | PStr s => date_is s
  | PList l =>
      match dump_list l with
      | Some literal => date_is literal
      | None => Raise ProgrammingError
      end
  | PNone => Ok None
  | PDict _ => Raise ProgrammingError
  | PBool _ | PInt _ | PFloat _ => Raise UndefinedFunction
  end.

Definition eval_cond (c : cond) : result (Row → bool) :=
  match c with
  | CarIn ids =>
      if existsb has_nul ids then Raise DataError
      else Ok (λ r, existsb (String.eqb (car r)) ids)
  | CarEq p => car_equals p
  | DateGe p =>
      d ← date_param p;
      Ok (λ r, match d with Some d => d <=? date r | None => false end)
  | DateLe p =>
      d ← date_param p;
      Ok (λ r, match d with Some d => date r <=? d | None => false end)
  end.

(** [cur.execute] reaching the table through an open connection. *)
Definition scan (conn : database) : result (list Row) :=
  match conn with
  | Connected table => Ok table
  | Failing e | Unreachable e => Raise e
  end.

(** [WHERE 1=1 AND c1 AND c2 ...]. *)
Definition where_clause (cs : list cond) : result (Row → bool) :=
  ps ← traverse eval_cond cs;
  Ok (λ r, forallb (λ p : Row → bool, p r) ps).

(** The snapshot query of [get_truck_locations], executed and fetched. *)
Definition latest_records (cs : list cond) (conn : database) : result (list Row) :=
  keep ← where_clause cs;
  table ← scan conn;
  fetchall (distinct_on_car (order_by by_car_latest (List.filter keep table))).

(** The query of [get_truck_history], executed and fetched. *)
Definition history_records (cs : list cond) (conn : database) : result (list Row) :=
  keep ← where_clause cs;
  table ← scan conn;
  fetchall (order_by by_latest (List.filter keep table)).

End Exec.
End Sql.

(* ===================================================================== *)
(** ** The snapshot and history paths *)
(* ===================================================================== *)

Record Geometry : Type := {
  geometry_type : string;
  coordinates : list Q
}.

Record Properties : Type := {
  p_id : string;
  p_status : string;
  p_timestamp : Z;
  p_date : string;
  p_last_update : string
}.

Record Feature : Type := {
  feature_type : string;
  geometry : Geometry;
  properties : Properties
}.

(** The body of [GET /api/trucks]. *)
Record FeatureCollection : Type := {
  collection_type : string;
  collection_features : list Feature
}.

(** A query parameter declared [Optional[str]]. *)
Definition of_query (p : option string) : pyval :=
  match p with
  | Some s => PStr s
  | None => PNone
  end.

Section Handlers.
Context `{Runtime}.

Definition get_db_connection (db : database) : result database :=
  match db with
  | Unreachable e =>
      Raise (HTTPException 500 ("Database connection error: " +:+ str_exn e))
  | Failing _ | Connected _ => Ok db
  end.

(** [[vid.strip() for vid in car_filter.split(',') if vid.strip()]]; only a
    [str] has [split]. *)
Definition vehicle_ids (car_filter : pyval) : result (list string) :=
  match car_filter with
  | PStr s => Ok (List.filter Py.nonempty (map Py.strip (Py.split "," s)))
  | _ => Raise AttributeError
  end.

(** [if date_from: ... if date_to: ...], the same in both queries. *)
Definition date_clauses (date_from date_to : pyval) : list Sql.cond :=
  (if Py.truthy date_from then [Sql.DateGe date_from] else [])
  ++ (if Py.truthy date_to then [Sql.DateLe date_to] else []).

(** The clauses [get_truck_locations] appends to its query, in order. *)
Definition locations_query (car_filter date_from date_to : pyval)
  : result (list Sql.cond) :=
  by_car ←
    (if Py.truthy car_filter then
       has_comma ← Py.contains "," car_filter;
       if has_comma : bool then
         ids ← vehicle_ids car_filter;
         Ok (match ids with [] => [] | _ :: _ => [Sql.CarIn ids] end)
       else Ok [Sql.CarEq car_filter]
     else Ok []);
  Ok (by_car ++ date_clauses date_from date_to).

(** The body of the [for row in rows] loop: one feature.  The code reads
    the clock anew for every row; the embedding reads it once per call. *)
Definition feature_of_row (current_time : Z) (row : Row) : result Feature :=
  let status := determine_status current_time (timestamp row) in
  last_update ←
    match strftime_local (timestamp row) with
    | Some s => Ok s
    | None => Raise ValueError
    end;
  Ok {| feature_type := "Feature";
        geometry := {| geometry_type := "Point";
                       coordinates := [longitude row; latitude row] |};
        properties := {| p_id := car row;
                         p_status := status;
                         p_timestamp := timestamp row;
                         p_date := str_date (date row);
                         p_last_update := last_update |} |}.

(** The [try] block of [get_truck_locations]. *)
Definition locations_try (db : database) (current_time : Z)
    (car_filter date_from date_to : pyval) : result (list Feature) :=
  conn ← get_db_connection db;
  query ← locations_query car_filter date_from date_to;
  rows ← Sql.latest_records query conn;
  traverse (feature_of_row current_time) rows.

(** [get_truck_locations]: whatever the [try] block raises, the answer is
    the empty list. *)
Definition get_truck_locations (db : database) (current_time : Z)
    (car_filter date_from date_to : pyval) : list Feature :=
  match locations_try db current_time car_filter date_from date_to with
  | Ok features => features
  | Raise _ => []
  end.

(** [GET /api/trucks]. *)
Definition get_trucks (db : database) (current_time : Z)
    (car date_from date_to : option string) : FeatureCollection :=
  {| collection_type := "FeatureCollection";
     collection_features :=
       get_truck_locations db current_time
         (of_query car) (of_query date_from) (of_query date_to) |}.

Definition history_query (car_id : string) (date_from date_to : option string)
  : list Sql.cond :=
  [Sql.CarEq (PStr car_id)] ++ date_clauses (of_query date_from) (of_query date_to).

(** [GET /api/trucks/{car_id}]: the rows under the key [history], or an
    [HTTPException] that FastAPI turns into the response. *)
Definition get_truck_history (db : database) (car_id : string)
    (date_from date_to : option string) : result (list Row) :=
  match (conn ← get_db_connection db;
         Sql.history_records (history_query car_id date_from date_to) conn) with
  | Ok rows => Ok rows
  | Raise e => Raise (HTTPException 500 ("Database error: " +:+ str_exn e))
  end.

End Handlers.

(* ===================================================================== *)
(** ** The live channel *)
(* ===================================================================== *)

(** The three filter variables of [websocket_endpoint]. *)
Record Filters : Type := {
  car_filter : pyval;
  date_from : pyval;
  date_to : pyval
}.

(** What [send_json] is given. *)
Record Push : Type := {
  push_type : string;
  push_features : list Feature;
  push_counts : gmap string nat
}.

(** Statements that read and assign the filter variables and can raise:
    an exception leaves the assignments made before it in place. *)
Definition stmt (A : Type) : Type := Filters → Filters * result A.

#[global] Instance stmt_ret : MRet stmt := λ A a st, (st, Ok a).
#[global] Instance stmt_bind : MBind stmt := λ A B k m st,
  match m st with
  | (st', Ok a) => k a st'
  | (st', Raise e) => (st', Raise e)
  end.

Definition eval {A : Type} (f : Filters → result A) : stmt A := λ st, (st, f st).
Definition assign (f : Filters → Filters) : stmt () := λ st, (f st, Ok ()).

Definition set_car_filter (v : pyval) (st : Filters) : Filters :=
  {| car_filter := v; date_from := date_from st; date_to := date_to st |}.
Definition set_date_from (v : pyval) (st : Filters) : Filters :=
  {| car_filter := car_filter st; date_from := v; date_to := date_to st |}.
Definition set_date_to (v : pyval) (st : Filters) : Filters :=
  {| car_filter := car_filter st; date_from := date_from st; date_to := v |}.

(** The statements under [data = await ...receive_json()], for the value
    received. *)
Definition on_message (data : pyval) : stmt () :=
  if Py.truthy data then
    has_filters ← eval (λ _, Py.contains "filters" data);
    if has_filters : bool then
      filters ← eval (λ _, Py.getitem data "filters");
      v ← eval (λ st, Py.get filters "car" (car_filter st));
      _ ← assign (set_car_filter v);
      v ← eval (λ st, Py.get filters "dateFrom" (date_from st));
      _ ← assign (set_date_from v);
      v ← eval (λ st, Py.get filters "dateTo" (date_to st));
      assign (set_date_to v)
    else mret ()
  else mret ().

(** What [asyncio.wait_for(websocket.receive_json(), timeout=0.01)] does in
    one cycle: nothing arrives in time, a JSON value arrives, or the call
    raises (text that is no JSON, a closed socket). *)
Inductive received : Type :=
  | Timeout
  | Json (data : pyval)
  | RecvError (e : exn).

(** The inner [try]: both handlers swallow the exception, so only the
    filter variables come out. *)
Definition receive (r : received) (st : Filters) : Filters :=
  match r with
  | Timeout => st
  | Json data => fst (on_message data st)
  | RecvError _ => st
  end.

Definition status_counts : gmap string nat :=
  {[ "moving" := 0%nat; "idle" := 0%nat; "stopped" := 0%nat ]}.

(** [for feature in features: status_counts[status] += 1]. *)
Fixpoint tally (counts : gmap string nat) (features : list Feature)
  : result (gmap string nat) :=
  match features with
  | [] => Ok counts
  | feature :: rest =>
      let status := p_status (properties feature) in
      match counts !! status with
      | Some n => tally (<[status := (n + 1)%nat]> counts) rest
      | None => Raise KeyError
      end
  end.

(** The session after [accept]: in the loop, or closed. *)
Inductive Session : Type :=
  | Streaming
  | Closed.

(** What the environment does during one cycle. *)
Record Cycle : Type := {
  recv : received;
  db : database;
  now : Z;
  send_ok : bool
}.

Section Live.
Context `{Runtime}.

(** From the call of [get_truck_locations] to the argument of
    [send_json]. *)
Definition snapshot (db : database) (current_time : Z) (st : Filters) : result Push :=
  let features :=
    get_truck_locations db current_time (car_filter st) (date_from st) (date_to st) in
  counts ← tally status_counts features;
  Ok {| push_type := "FeatureCollection";
        push_features := features;
        push_counts := counts |}.

(** One pass through the body of [while True]: the filters after it, what
    the client was sent, and whether the loop goes on.  Any exception that
    reaches the outer handler, a failed [send_json] among them, breaks the
    loop. *)
Definition cycle (c : Cycle) (st : Filters) : Filters * option Push * Session :=
  let st' := receive (recv c) st in
  match snapshot (db c) (now c) st' with
  | Ok push =>
      if send_ok c then (st', Some push, Streaming) else (st', None, Closed)
  | Raise _ => (st', None, Closed)
  end.

(** The loop over the cycles the environment provides: the pushes made, and
    [Streaming] when the loop is still running after the last of them. *)
Fixpoint loop (trace : list Cycle) (st : Filters) : list Push * Session :=
  match trace with
  | [] => ([], Streaming)
  | c :: rest =>
      match cycle c st with
      | (st', Some push, Streaming) =>
          let (pushes, s) := loop rest st' in (push :: pushes, s)
      | (_, Some push, Closed) => ([push], Closed)
      | (_, None, _) => ([], Closed)
      end
  end.

(** [websocket_endpoint] once the socket is accepted. *)
Definition websocket_endpoint (car_filter date_from date_to : option string)
    (trace : list Cycle) : list Push * Session :=
  loop trace {| car_filter := of_query car_filter;
                date_from := of_query date_from;
                date_to := of_query date_to |}.

End Live.

(* ===================================================================== *)
(** ** Vocabulary of the properties *)
(* ===================================================================== *)

(** The counters while the loop runs: the three keys and nothing else, and
    the values add up to the features counted so far. *)
Definition tallied (n : nat) (counts : gmap string nat) : Prop :=
  dom counts = {[ "moving"; "idle"; "stopped" ]}
  ∧ ∃ moving idle stopped : nat,
      counts !! "moving" = Some moving
      ∧ counts !! "idle" = Some idle
      ∧ counts !! "stopped" = Some stopped
      ∧ (moving + idle + stopped)%nat = n.

(** The repository fails: the database is out of reach or the statement
    fails when executed. *)
Definition down (d : database) : bool :=
  match d with
  | Unreachable _ | Failing _ => true
  | Connected _ => false
  end.

(** A client message that is a filter update in form: a JSON object whose
    member [filters] is a JSON object. *)
Definition well_formed_update (data : pyval) : bool :=
  match data with
  | PDict d =>
      match d !! "filters" with
      | Some (PDict _) => true
      | _ => false
      end
  | _ => false
  end.

(** What the loop receives in a cycle in which the client sent something
    that is no filter update: text that [receive_json] cannot decode, or a
    JSON value of another form. *)
Inductive malformed : received → Prop :=
  | malformed_text (e : exn) : malformed (RecvError e)
  | malformed_json (data : pyval) :
      well_formed_update data = false → malformed (Json data).

(** The filter of the data model, as the specification has it: a set of
    vehicle ids, the empty set standing for all vehicles, and two optional
    date bounds, both inclusive. *)
Record Filter : Type := {
  vehicleIds : list string;
  dateFrom : option Z;
  dateTo : option Z
}.

(** A position record satisfies a filter. *)
Definition satisfies (flt : Filter) (r : Row) : bool :=
  match vehicleIds flt with
  | [] => true
  | _ :: _ => existsb (String.eqb (car r)) (vehicleIds flt)
  end
  && match dateFrom flt with Some lo => lo <=? date r | None => true end
  && match dateTo flt with Some hi => date r <=? hi | None => true end.

(** The vehicle ids a car parameter names: none when it is absent or
    empty; the trimmed, non-empty pieces of a comma-separated list; else the
    parameter itself, as it stands. *)
Definition requested_ids (car_filter : option string) : list string :=
  match car_filter with
  | None => []
  | Some s =>
      if Py.str_contains "," s
      then List.filter Py.nonempty (map Py.strip (Py.split "," s))
      else if Py.nonempty s then [s] else []
  end.

Section Vocabulary.
Context `{Runtime}.

(** The day a date parameter names: no bound when it is absent or empty;
    the outer [None] when it is not a date. *)
Definition requested_bound (p : option string) : option (option Z) :=
  match p with
  | None => Some None
  | Some s => if Py.nonempty s then Some <$> date_in s else Some None
  end.

(** The filter that three request parameters stand for, when both date
    parameters can be read. *)
Definition requested_filter (car_filter date_from date_to : option string)
  : option Filter :=
  lo ← requested_bound date_from;
  hi ← requested_bound date_to;
  Some {| vehicleIds := requested_ids car_filter; dateFrom := lo; dateTo := hi |}.

(** A row can be shown: its date fits a [datetime.date] and its timestamp a
    [datetime], so that fetching it and building its feature raise
    nothing. *)
Definition renders (r : Row) : Prop :=
  Sql.loads r = true ∧ is_Some (strftime_local (timestamp r)).

End Vocabulary.

(* ===================================================================== *)
(** ** A concrete runtime: a server whose local time is UTC *)
(* ===================================================================== *)

Module Utc.

(** Day number to (year, month, day) in the proleptic Gregorian calendar,
    and back. *)
Definition civil_from_days (day : Z) : Z * Z * Z :=
  let z := day + 719468 in
  let era := z / 146097 in
  let doe := z - era * 146097 in
  let yoe := (doe - doe / 1460 + doe / 36524 - doe / 146096) / 365 in
  let doy := doe - (365 * yoe + yoe / 4 - yoe / 100) in
  let mp := (5 * doy + 2) / 153 in
  let d := doy - (153 * mp + 2) / 5 + 1 in
  let m := if mp <? 10 then mp + 3 else mp - 9 in
  (yoe + era * 400 + (if m <=? 2 then 1 else 0), m, d).

Definition days_from_civil (y m d : Z) : Z :=
  let y := if m <=? 2 then y - 1 else y in
  let era := y / 400 in
  let yoe := y - era * 400 in
  let doy := (153 * (if 2 <? m then m - 3 else m + 9) + 2) / 5 + d - 1 in
  let doe := yoe * 365 + yoe / 4 - yoe / 100 + doy in
  era * 146097 + doe - 719468.

Definition digit (n : Z) : ascii := ascii_of_N (48 + Z.to_N (n mod 10)).

Definition pad2 (n : Z) : string :=
  String (digit (n / 10)) (String (digit n) EmptyString).

Definition pad3 (n : Z) : string := String (digit (n / 100)) (pad2 n).

Definition pad4 (n : Z) : string := String (digit (n / 1000)) (pad3 n).

Definition isoformat (day : Z) : string :=
  let '(y, m, d) := civil_from_days day in
  pad4 y +:+ "-" +:+ pad2 m +:+ "-" +:+ pad2 d.

Definition year_of (day : Z) : Z := let '(y, _, _) := civil_from_days day in y.

(** [%Y] of the C library: the year without padding. *)
Definition year_digits (y : Z) : string :=
  if y <? 10 then String (digit y) EmptyString
  else if y <? 100 then pad2 y
  else if y <? 1000 then pad3 y
  else pad4 y.

(** [datetime] covers the years 1 to 9999, and [fromtimestamp] also looks
    at the time one day earlier, so the first day of year 1 raises too. *)
Definition strftime (ts : Z) : option string :=
  let day := ts / 86400 in
  let secs := ts mod 86400 in
  let '(y, m, d) := civil_from_days day in
  if (1 <=? year_of ((ts - 86400) / 86400)) && (y <=? 9999) then
    Some (year_digits y +:+ "-" +:+ pad2 m +:+ "-" +:+ pad2 d
          +:+ " " +:+ pad2 (secs / 3600) +:+ ":"
          +:+ pad2 (secs mod 3600 / 60) +:+ ":" +:+ pad2 (secs mod 60))
  else None.

Definition digit_value (c : ascii) : option Z :=
  let n := Z.of_N (N_of_ascii c) in
  if (48 <=? n) && (n <=? 57) then Some (n - 48) else None.

Fixpoint number (acc : Z) (s : string) : option Z :=
  match s with
  | EmptyString => Some acc
  | String c s' =>
      match digit_value c with
      | Some v => number (10 * acc + v) s'
      | None => None
      end
  end.

(** The ISO form [YYYY-MM-DD] of a day that exists, from year 1 on.
    PostgreSQL reads more than this form (as [20231114], or [yesterday]):
    the instance stands for the server on strings of ten characters made of
    digits and hyphens, and the examples bind no other date string. *)
Definition parse_date (s : string) : option Z :=
  match Py.split "-" s with
  | [ys; ms; ds] =>
      if (String.length ys =? 4)%nat && (String.length ms =? 2)%nat
         && (String.length ds =? 2)%nat then
        match number 0 ys, number 0 ms, number 0 ds with
        | Some y, Some m, Some d =>
            let day := days_from_civil y m d in
            if (1 <=? y) && bool_decide (civil_from_days day = (y, m, d))
            then Some day else None
        | _, _, _ => None
        end
      else None
  | _ => None
  end.

(** The array literal of a list of strings, [None] elements and such
    lists: an element is quoted when it is empty, spells [null], or holds a
    brace, a comma, a quote, a backslash or ASCII white space. *)
Definition quote_char : ascii := ascii_of_N 34.
Definition backslash : ascii := ascii_of_N 92.

Definition special (c : ascii) : bool :=
  let n := N_of_ascii c in
  Ascii.eqb c quote_char || Ascii.eqb c backslash || Ascii.eqb c "{"
  || Ascii.eqb c "}" || Ascii.eqb c ","
  || ((9 <=? n) && (n <=? 13) || (n =? 32))%N.

Fixpoint escape (s : string) : string :=
  match s with
  | EmptyString => EmptyString
  | String c s' =>
      if Ascii.eqb c quote_char || Ascii.eqb c backslash
      then String backslash (String c (escape s'))
      else String c (escape s')
  end.

Definition lower (c : ascii) : ascii :=
  let n := N_of_ascii c in
  if ((65 <=? n) && (n <=? 90))%N then ascii_of_N (n + 32) else c.

Definition spells_null (s : string) : bool :=
  String.eqb (string_of_list_ascii (map lower (list_ascii_of_string s))) "null".

Definition element (s : string) : string :=
  if String.eqb s "" || spells_null s || existsb special (list_ascii_of_string s)
  then String quote_char (escape s) +:+ String quote_char EmptyString
  else s.

Fixpoint array_literal (v : pyval) : option string :=
  match v with
  | PNone => Some "NULL"
  | PStr s => if Sql.has_nul s then None else Some (element s)
  | PList l =>
      let items :=
        (fix items (l : list pyval) : option (list string) :=
           match l with
           | [] => Some []
           | x :: l' =>
               match array_literal x, items l' with
               | Some a, Some rest => Some (a :: rest)
               | _, _ => None
               end
           end) l in
      match items with
      | Some elements => Some ("{" +:+ String.concat "," elements +:+ "}")
      | None => None
      end
  | PBool _ | PInt _ | PFloat _ | PDict _ => None
  end.

(** [str(e)]: short texts that stand for the messages of the libraries. *)
Definition exn_name (e : exn) : string :=
  match e with
  | TypeError => "TypeError"
  | AttributeError => "AttributeError"
  | KeyError => "KeyError"
  | ValueError => "year is out of range"
  | JSONDecodeError => "Expecting value"
  | WebSocketDisconnect => "WebSocketDisconnect"
  | OperationalError msg => msg
  | UndefinedFunction => "operator does not exist"
  | InvalidDatetimeFormat => "invalid input syntax for type date"
  | ProgrammingError => "cannot adapt type"
  | DataError => "data error"
  | HTTPException status_code detail => pad3 status_code +:+ ": " +:+ detail
  end.

#[global] Instance runtime : Runtime := {|
  date_in := parse_date;
  dump_list := λ l, array_literal (PList l);
  strftime_local := strftime;
  str_date := isoformat;
  str_exn := exn_name
|}.

End Utc.

(* ===================================================================== *)
(** ** Evaluation on small inputs *)
(* ===================================================================== *)

Module Examples.
Import Utc.

(** The reference time of the examples: 2023-11-14 22:13:20 UTC. *)
Definition t0 : Z := 1700000000.

Definition row (c : string) (ts : Z) : Row :=
  {| car := c; latitude := 31 # 1; longitude := 74 # 1;
     timestamp := ts; date := ts / 86400 |}.

(** The table of the specification's end-to-end scenario, with an older
    position of T1 added. *)
Definition fleet : list Row :=
  [row "T2" (t0 - 5000); row "T1" (t0 - 9000); row "T1" (t0 - 100)].

Definition no_filter : Filters :=
  {| car_filter := PNone; date_from := PNone; date_to := PNone |}.

Definition quiet (d : database) : Cycle :=
  {| recv := Timeout; db := d; now := t0; send_ok := true |}.

(** The client messages [{"filters": {"car": "X"}}] and
    [{"filters": {"car": null}}]. *)
Definition update_car_X : gmap string pyval :=
  {[ "filters" := PDict {[ "car" := PStr "X" ]} ]}.

Definition update_car_null : gmap string pyval :=
  {[ "filters" := PDict {[ "car" := PNone ]} ]}.

(** The filters of a session that follows T1 through March 2023. *)
Definition march : Filters :=
  {| car_filter := PStr "T1";
     date_from := PStr "2023-03-01";
     date_to := PStr "2023-03-31" |}.

(** A cycle that receives [{"filters": "all"}]: the member is no object. *)
Definition not_an_update : Cycle :=
  {| recv := Json (PDict {[ "filters" := PStr "all" ]});
     db := Connected fleet; now := t0; send_ok := true |}.


(** The feature of T2 in [fleet] at [t0]. *)
Definition feature_T2 : Feature :=
  {| feature_type := "Feature";
     geometry := {| geometry_type := "Point"; coordinates := [74 # 1; 31 # 1] |};
     properties := {| p_id := "T2"; p_status := "stopped";
                      p_timestamp := t0 - 5000;
                      p_date := "2023-11-14";
                      p_last_update := "2023-11-14 20:50:00" |} |}.

End Examples.

(* ===================================================================== *)
(** ** The vehicle listing *)
(* ===================================================================== *)

(** [SELECT DISTINCT car]: every car once.  SQL leaves the order of the
    answer open; here a car stands where its first row does, and nothing
    proved below depends on the order. *)
Definition distinct_cars (table : list Row) : list string :=
  remove_dups (map car table).

Section Vehicles.
Context `{Runtime}.

(** [GET /api/vehicles]: the list under the key [vehicles], or the
    [HTTPException] raised by the handler. *)
Definition get_all_vehicles (db : database) : result (list string) :=
  match (conn ← get_db_connection db;
         table ← Sql.scan conn;
         Ok (distinct_cars table)) with
  | Ok vehicles => Ok vehicles
  | Raise e => Raise (HTTPException 500 ("Database error: " +:+ str_exn e))
  end.

End Vehicles.

(* ===================================================================== *)
(** ** Connection parameters *)
(* ===================================================================== *)

(** What [psycopg.AsyncConnection.connect] is called with: a connection
    string, or keyword arguments. *)
Inductive conninfo : Type :=
  | Dsn (url : string)
  | Keywords (params : gmap string string).

(** The dict literal of the module: connection key and the environment
    variable read for it. *)
Definition env_variables : list (string * string) :=
  [("host", "DB_HOST"); ("port", "DB_PORT"); ("dbname", "DB_NAME");
   ("user", "DB_USER"); ("password", "DB_PASSWORD")].

(** [{k: v for k, v in {...}.items() if v is not None}], with [os.getenv]
    reading [environ]. *)
Definition params_from_env (environ : gmap string string) : gmap string string :=
  list_to_map (omap (λ kv : string * string, pair kv.1 <$> environ !! kv.2)
                 env_variables).

(** The module-level [db_params]. *)
Definition db_params (environ : gmap string string) : conninfo :=
  match environ !! "DATABASE_URL" with
  | Some db_url =>
      if Py.truthy (PStr db_url) then Dsn db_url
      else Keywords (params_from_env environ)
  | None => Keywords (params_from_env environ)
  end.

Definition valid_keys : gset string :=
  {[ "host"; "port"; "dbname"; "user"; "password" ]}.

(** The arguments [get_db_connection] passes on: the string as it is, or
    the entries under a valid key ([str] of a string is the string, and no
    entry of the dict is [None]). *)
Definition connect_arguments (params : conninfo) : conninfo :=
  match params with
  | Dsn url => Dsn url
  | Keywords d => Keywords (filter (λ kv : string * string, kv.1 ∈ valid_keys) d)
  end.

(* ===================================================================== *)
(** ** More vocabulary *)
(* ===================================================================== *)

(** The features with a given status. *)
Definition count_status (s : string) (features : list Feature) : nat :=
  length (List.filter (λ f, String.eqb (p_status (properties f)) s) features).

(** [", ".join(ids)]. *)
Fixpoint join_comma (ids : list string) : string :=
  match ids with
  | [] => ""
  | [t] => t
  | t :: rest => t +:+ ", " +:+ join_comma rest
  end.

(** An id as it comes out of the comma-separated parameter: not empty,
    without a comma, without whitespace at either end. *)
Definition token (t : string) : Prop :=
  t ≠ "" ∧ Py.str_contains "," t = false ∧ Py.strip t = t.

(** The filter variables after a run of cycles. *)
Definition filters_after (trace : list Cycle) (st : Filters) : Filters :=
  fold_left (λ st c, receive (recv c) st) trace st.

(* ===================================================================== *)
(** ** More small inputs *)
(* ===================================================================== *)

Module MoreExamples.
Import Utc Examples.

(** A cycle in which the client has gone away: the send fails. *)
Definition hangup : Cycle :=
  {| recv := Timeout; db := Connected fleet; now := t0; send_ok := false |}.

(** A cycle that receives [{"filters": {"car": "X"}}]. *)
Definition follow_X : Cycle :=
  {| recv := Json (PDict update_car_X);
     db := Connected fleet; now := t0; send_ok := true |}.

(** The two rows of T1 in [fleet], latest first. *)
Definition history_T1 : list Row := [row "T1" (t0 - 100); row "T1" (t0 - 9000)].

(** The feature of T1 in [fleet] at [t0]. *)
Definition feature_T1 : Feature :=
  {| feature_type := "Feature";
     geometry := {| geometry_type := "Point"; coordinates := [74 # 1; 31 # 1] |};
     properties := {| p_id := "T1"; p_status := "moving";
                      p_timestamp := t0 - 100;
                      p_date := "2023-11-14";
                      p_last_update := "2023-11-14 22:11:40" |} |}.

(** An environment with a database name and a user, and no URL. *)
Definition environ_keywords : gmap string string :=
  {[ "DB_NAME" := "fleet"; "DB_USER" := "tracker"; "HOME" := "/srv" ]}.

End MoreExamples.

(* ===================================================================== *)
(** * Properties *)
(* ===================================================================== *)

(** ** The classifier *)

Lemma Qgtb_lt (x y : Q) : Qgtb x y = true ↔ (y < x)%Q.
Proof.
  unfold Qgtb. rewrite negb_true_iff. split.
  - intros Hle. apply Qnot_le_lt. intros Hxy.
    apply Qle_bool_iff in Hxy. congruence.
  - intros Hlt. destruct (Qle_bool x y) eqn:Hle; [|reflexivity].
    apply Qle_bool_iff in Hle. exfalso. exact (Qlt_not_le _ _ Hlt Hle).
Qed.

Lemma Qgtb_not_lt (x y : Q) : Qgtb x y = false ↔ ¬ (y < x)%Q.
Proof.
  rewrite <- Qgtb_lt. destruct (Qgtb x y); split; congruence.
Qed.

(** The age in hours against a threshold [n # d], in seconds. *)
Lemma age_hours_lt (seconds n : Z) (d : positive) :
  (n # d < inject_Z seconds / 3600)%Q ↔ n * 3600 < seconds * Z.pos d.
Proof.
  unfold Qlt, Qdiv, Qmult, Qinv, inject_Z. simpl. lia.
Qed.

(** The classifier in whole seconds: above 3600 stopped, above 1800 idle. *)
Lemma determine_status_seconds (current_time timestamp : Z) :
  determine_status current_time timestamp =
    if 3600 <? current_time - timestamp then "stopped"
    else if 1800 <? current_time - timestamp then "idle"
    else "moving".
Proof.
  unfold determine_status, STALE_THRESHOLD_HOURS, IDLE_THRESHOLD_HOURS.
  set (age := current_time - timestamp).
  destruct (Z.ltb_spec 3600 age) as [Hs|Hs].
  - replace (Qgtb _ 1) with true; [reflexivity|].
    symmetry. apply Qgtb_lt. change 1%Q with (1 # 1). apply age_hours_lt. lia.
  - replace (Qgtb _ 1) with false.
    2:{ symmetry. apply Qgtb_not_lt. change 1%Q with (1 # 1).
        rewrite age_hours_lt. lia. }
    destruct (Z.ltb_spec 1800 age) as [Hi|Hi].
    + replace (Qgtb _ (1 # 2)) with true; [reflexivity|].
      symmetry. apply Qgtb_lt. apply age_hours_lt. lia.
    + replace (Qgtb _ (1 # 2)) with false; [reflexivity|].
      symmetry. apply Qgtb_not_lt. rewrite age_hours_lt. lia.
Qed.

(** C1.  For every timestamp and reference time, with [age] the difference
    in hours: stopped when [age > 1.0], otherwise idle when [age > 0.5],
    otherwise moving.  In particular an age of exactly one hour is idle, an
    age of zero is moving and a timestamp in the future is moving. *)
Theorem determine_status_rule (current_time timestamp : Z) :
  let age := (inject_Z (current_time - timestamp) / 3600)%Q in
  ((1 < age)%Q → determine_status current_time timestamp = "stopped")
  ∧ (¬ (1 < age)%Q → (1 # 2 < age)%Q →
     determine_status current_time timestamp = "idle")
  ∧ (¬ (1 < age)%Q → ¬ (1 # 2 < age)%Q →
     determine_status current_time timestamp = "moving")
  ∧ (current_time - timestamp = 3600 →
     determine_status current_time timestamp = "idle")
  ∧ (current_time = timestamp →
     determine_status current_time timestamp = "moving")
  ∧ (current_time < timestamp →
     determine_status current_time timestamp = "moving").
Proof.
  intros age. subst age. change 1%Q with (1 # 1).
  rewrite !age_hours_lt, determine_status_seconds.
  repeat split; intros;
    repeat match goal with
    | |- context [?a <? ?b] => destruct (Z.ltb_spec a b)
    end; try reflexivity; lia.
Qed.

(** C2, as the code has it.  An age of exactly half an hour is not above
    the idle threshold: the classifier answers moving. *)
Theorem determine_status_half_hour (current_time timestamp : Z) :
  current_time - timestamp = 1800 →
  determine_status current_time timestamp = "moving".
Proof.
  intros Hage. rewrite determine_status_seconds, Hage. reflexivity.
Qed.

(** ** The queries *)

Module SqlFacts.
Import Sql.

Section OrderByFacts.
Variable leb : Row → Row → bool.
Hypothesis leb_total : ∀ a b, leb a b = false → leb b a = true.
Hypothesis leb_trans : ∀ a b c, leb a b = true → leb b c = true → leb a c = true.

Let le (a b : Row) : Prop := leb a b = true.

Lemma insert_row_perm (r : Row) (l : list Row) : insert_row leb r l ≡ₚ r :: l.
Proof.
  induction l as [|x l IH]; simpl; [reflexivity|].
  destruct (leb r x); [reflexivity|].
  rewrite IH. apply perm_swap.
Qed.

Lemma order_by_perm (l : list Row) : order_by leb l ≡ₚ l.
Proof.
  induction l as [|r l IH]; simpl; [reflexivity|].
  rewrite insert_row_perm. by constructor.
Qed.

Lemma order_by_In (l : list Row) (x : Row) : In x (order_by leb l) ↔ In x l.
Proof.
  split; apply Permutation_in; [|symmetry]; apply order_by_perm.
Qed.

Lemma insert_row_sorted (r : Row) (l : list Row) :
  StronglySorted le l → StronglySorted le (insert_row leb r l).
Proof.
  induction 1 as [|x l Hl IH Hx]; simpl.
  - repeat constructor.
  - destruct (leb r x) eqn:Hrx.
    + constructor; [by constructor|].
      constructor; [exact Hrx|].
      eapply List.Forall_impl; [|exact Hx]. intros y Hy. exact (leb_trans _ _ _ Hrx Hy).
    + constructor; [exact IH|].
      rewrite insert_row_perm. constructor; [|exact Hx].
      apply leb_total, Hrx.
Qed.

Lemma order_by_sorted (l : list Row) : StronglySorted le (order_by leb l).
Proof.
  induction l as [|r l IH]; simpl; [constructor|].
  by apply insert_row_sorted.
Qed.

(** In front of rows that may all follow it, a row is inserted first. *)
Lemma insert_row_first (r : Row) (l : list Row) :
  Forall (le r) l → insert_row leb r l = r :: l.
Proof.
  destruct 1 as [|x l Hx _]; simpl; [reflexivity|]. by rewrite Hx.
Qed.

Lemma filter_insert_row (p : Row → bool) (r : Row) (l : list Row) :
  StronglySorted le l →
  List.filter p (insert_row leb r l) =
    if p r then insert_row leb r (List.filter p l) else List.filter p l.
Proof.
  induction 1 as [|x l Hl IH Hx]; simpl.
  - by destruct (p r).
  - destruct (leb r x) eqn:Hrx; simpl.
    + destruct (p r); [|reflexivity].
      symmetry. apply insert_row_first.
      assert (Hall : Forall (le r) (x :: l)).
      { constructor; [exact Hrx|].
        eapply List.Forall_impl; [|exact Hx]. intros y Hy. exact (leb_trans _ _ _ Hrx Hy). }
      apply List.Forall_forall. intros y Hy.
      apply (proj1 (List.Forall_forall _ _) Hall).
      change (In y (List.filter p (x :: l))) in Hy.
      apply filter_In in Hy. tauto.
    + rewrite IH. destruct (p x), (p r); simpl; try reflexivity.
      by rewrite Hrx.
Qed.

(** Selecting rows commutes with the sort: what a row's neighbours of the
    same selection are does not depend on the other rows. *)
Lemma filter_order_by (p : Row → bool) (l : list Row) :
  List.filter p (order_by leb l) = order_by leb (List.filter p l).
Proof.
  induction l as [|r l IH]; simpl; [reflexivity|].
  rewrite filter_insert_row by apply order_by_sorted.
  rewrite IH. by destruct (p r).
Qed.

(** The first row of a sorted list may stand before every row of it. *)
Lemma order_by_head (l : list Row) (x y : Row) :
  head (order_by leb l) = Some x → In y l → leb x y = true ∨ y = x.
Proof.
  intros Hhead Hy. apply order_by_In in Hy.
  pose proof (order_by_sorted l) as Hs.
  destruct (order_by leb l) as [|z l']; [done|].
  simpl in Hhead. injection Hhead as ->.
  apply StronglySorted_inv in Hs as [_ Hall].
  destruct Hy as [->|Hy]; [by right|left].
  exact (proj1 (List.Forall_forall _ _) Hall _ Hy).
Qed.

End OrderByFacts.

Lemma compare_refl (a : string) : String_as_OT.compare a a = Eq.
Proof.
  destruct (String_as_OT.compare_spec a a) as [_|Hlt|Hlt]; [reflexivity| |];
    by apply (StrictOrder_Irreflexive (R := String_as_OT.lt)) in Hlt.
Qed.

Lemma compare_Eq (a b : string) : String_as_OT.compare a b = Eq → a = b.
Proof.
  destruct (String_as_OT.compare_spec a b) as [Heq|_|_]; [|discriminate..].
  intros _. exact Heq.
Qed.

Lemma compare_Gt (a b : string) :
  String_as_OT.compare a b = Gt → String_as_OT.compare b a = Lt.
Proof.
  destruct (String_as_OT.compare_spec a b) as [_|_|Hlt]; [discriminate..|].
  intros _. exact Hlt.
Qed.

Lemma compare_Lt_trans (a b c : string) :
  String_as_OT.compare a b = Lt → String_as_OT.compare b c = Lt →
  String_as_OT.compare a c = Lt.
Proof.
  apply (StrictOrder_Transitive (R := String_as_OT.lt)).
Qed.

Lemma by_car_latest_total (a b : Row) :
  by_car_latest a b = false → by_car_latest b a = true.
Proof.
  unfold by_car_latest.
  destruct (String_as_OT.compare (car a) (car b)) eqn:Hab; [|discriminate|].
  - apply compare_Eq in Hab. rewrite Hab, compare_refl. lia.
  - intros _. by rewrite (compare_Gt _ _ Hab).
Qed.

Lemma by_car_latest_trans (a b c : Row) :
  by_car_latest a b = true → by_car_latest b c = true → by_car_latest a c = true.
Proof.
  unfold by_car_latest.
  destruct (String_as_OT.compare (car a) (car b)) eqn:Hab; [| |discriminate].
  - apply compare_Eq in Hab. rewrite Hab.
    destruct (String_as_OT.compare (car b) (car c)); [lia|done|done].
  - destruct (String_as_OT.compare (car b) (car c)) eqn:Hbc; [| |discriminate].
    + apply compare_Eq in Hbc. rewrite <- Hbc, Hab. done.
    + by rewrite (compare_Lt_trans _ _ _ Hab Hbc).
Qed.

Lemma by_car_latest_same (a b : Row) :
  car a = car b → by_car_latest a b = true → timestamp b ≤ timestamp a.
Proof.
  unfold by_car_latest. intros ->. rewrite compare_refl. lia.
Qed.

Lemma same_car_true (a : string) (r : Row) : same_car a r = true ↔ car r = a.
Proof. apply String.eqb_eq. Qed.

Lemma same_car_false (a : string) (r : Row) : same_car a r = false ↔ car r ≠ a.
Proof. apply String.eqb_neq. Qed.

(** A row survives [DISTINCT ON (car)] exactly when it is the first of the
    rows with its [car]. *)
Lemma distinct_on_car_In (l : list Row) (x : Row) :
  In x (distinct_on_car l) ↔ head (List.filter (same_car (car x)) l) = Some x.
Proof.
  induction l as [|r l IH]; simpl; [by split|].
  destruct (same_car (car x) r) eqn:Hr; simpl.
  - apply same_car_true in Hr. split.
    + intros [->|Hin]; [reflexivity|].
      apply filter_In in Hin as [_ Hne].
      apply negb_true_iff, same_car_false in Hne. congruence.
    + intros [= ->]. by left.
  - apply same_car_false in Hr. rewrite <- IH. split.
    + intros [->|Hin]; [done|]. apply filter_In in Hin. tauto.
    + intros Hin. right. apply filter_In. split; [exact Hin|].
      apply negb_true_iff, same_car_false. congruence.
Qed.

Lemma NoDup_map_filter {A B : Type} (f : A → B) (p : A → bool) (l : list A) :
  NoDup (map f l) → NoDup (map f (List.filter p l)).
Proof.
  induction l as [|a l IH]; simpl; [done|].
  intros Hnd. apply NoDup_cons in Hnd as [Hnotin Hnd].
  destruct (p a); simpl; [|by apply IH].
  apply NoDup_cons. split; [|by apply IH].
  rewrite list_elem_of_In in *. intros Hin. apply Hnotin.
  apply in_map_iff in Hin as (y & Hy & Hin). apply in_map_iff.
  exists y. split; [exact Hy|]. apply filter_In in Hin. tauto.
Qed.

(** No two surviving rows have the same [car]. *)
Lemma distinct_on_car_NoDup (l : list Row) : NoDup (map car (distinct_on_car l)).
Proof.
  induction l as [|r l IH]; simpl; [constructor|].
  apply NoDup_cons. split; [|by apply NoDup_map_filter].
  rewrite list_elem_of_In. intros Hin.
  apply in_map_iff in Hin as (y & Hy & Hin).
  apply filter_In in Hin as [_ Hne].
  apply negb_true_iff, same_car_false in Hne. congruence.
Qed.

Lemma filter_filter_andb {A : Type} (p q : A → bool) (l : list A) :
  List.filter q (List.filter p l) = List.filter (λ x, p x && q x) l.
Proof.
  induction l as [|a l IH]; simpl; [done|].
  destruct (p a); simpl; [|exact IH]. destruct (q a); simpl; by rewrite IH.
Qed.

(** The rows of the snapshot query are the latest rows of the vehicles. *)
Lemma latest_rows_In (keep : Row → bool) (table : list Row) (x : Row) :
  In x (distinct_on_car (order_by by_car_latest (List.filter keep table)))
  ↔ latest_of keep table (car x) = Some x.
Proof.
  rewrite distinct_on_car_In.
  rewrite (filter_order_by _ by_car_latest_total by_car_latest_trans).
  by rewrite filter_filter_andb.
Qed.

(** The latest row of a vehicle is a kept row of that vehicle, and no kept
    row of the vehicle has a later timestamp. *)
Lemma latest_of_Some (keep : Row → bool) (table : list Row) (a : string) (x : Row) :
  latest_of keep table a = Some x →
  In x table ∧ keep x = true ∧ car x = a
  ∧ ∀ y, In y table → keep y = true → car y = a → timestamp y ≤ timestamp x.
Proof.
  unfold latest_of. intros Hhead.
  assert (Hx : In x (List.filter (λ r, keep r && same_car a r) table)).
  { apply (order_by_In by_car_latest).
    destruct (order_by by_car_latest _) as [|z l]; [done|].
    injection Hhead as ->. by left. }
  apply filter_In in Hx as [Hx Hkx]. apply andb_true_iff in Hkx as [Hkx Hcx].
  apply same_car_true in Hcx.
  repeat split; [done..|]. intros y Hy Hky Hcy.
  assert (Hyin : In y (List.filter (λ r, keep r && same_car a r) table)).
  { apply filter_In. split; [exact Hy|].
    apply andb_true_iff. split; [exact Hky|]. by apply same_car_true. }
  destruct (order_by_head _ by_car_latest_total by_car_latest_trans _ x y Hhead Hyin)
    as [Hle| ->]; [|lia].
  apply by_car_latest_same; [congruence|exact Hle].
Qed.

(** Every vehicle with a kept row has a latest row. *)
Lemma latest_of_is_Some (keep : Row → bool) (table : list Row) (y : Row) :
  In y table → keep y = true → is_Some (latest_of keep table (car y)).
Proof.
  intros Hy Hky. unfold latest_of.
  assert (Hin : In y (order_by by_car_latest
                        (List.filter (λ r, keep r && same_car (car y) r) table))).
  { apply order_by_In, filter_In. split; [exact Hy|].
    apply andb_true_iff. split; [exact Hky|]. by apply same_car_true. }
  destruct (order_by by_car_latest _) as [|z l]; [done|]. by eexists.
Qed.

End SqlFacts.

(** ** Exceptions and loops *)

Lemma bind_Ok {A B : Type} (m : result A) (k : A → result B) (b : B) :
  (a ← m; k a) = Ok b ↔ ∃ a, m = Ok a ∧ k a = Ok b.
Proof.
  destruct m as [a|e]; simpl; split.
  - intros Hk. by exists a.
  - by intros (a' & [= ->] & Hk).
  - discriminate.
  - by intros (a' & [=] & _).
Qed.

Lemma traverse_Ok {A B : Type} (f : A → result B) (l : list A) (ys : list B) :
  traverse f l = Ok ys ↔ Forall2 (λ x y, f x = Ok y) l ys.
Proof.
  revert ys. induction l as [|x l IH]; intros ys; simpl.
  - split; [intros [= <-]; constructor|]. by intros ->%Forall2_nil_inv_l.
  - rewrite bind_Ok. split.
    + intros (y & Hy & Hrest). apply bind_Ok in Hrest as (ys' & Hys' & [= <-]).
      constructor; [exact Hy|]. by apply IH.
    + intros (y & ys' & Hy & Hys' & ->)%Forall2_cons_inv_l.
      exists y. split; [exact Hy|]. apply bind_Ok. exists ys'.
      split; [by apply IH|reflexivity].
Qed.

Lemma traverse_Ok_In {A B : Type} (f : A → result B) (l : list A) (ys : list B) (y : B) :
  traverse f l = Ok ys → In y ys ↔ ∃ x, In x l ∧ f x = Ok y.
Proof.
  rewrite traverse_Ok. induction 1 as [|x y' l ys Hxy _ IH]; simpl.
  - split; [done|]. by intros (x & [] & _).
  - rewrite IH. split.
    + intros [<-|(x' & Hin & Hf)]; [exists x; tauto|exists x'; tauto].
    + intros (x' & [<-|Hin] & Hf); [left; congruence|right; by exists x'].
Qed.

Lemma traverse_total {A B : Type} (f : A → result B) (l : list A) :
  (∀ x, In x l → ∃ y, f x = Ok y) → ∃ ys, traverse f l = Ok ys.
Proof.
  induction l as [|x l IH]; simpl; intros Hall; [by eexists|].
  destruct (Hall x) as [y Hy]; [by left|]. rewrite Hy. simpl.
  destruct IH as [ys Hys]; [intros; apply Hall; by right|].
  rewrite Hys. simpl. by eexists.
Qed.

(** Fetching succeeds, and hands over the rows as they are, exactly when
    every date fits a [datetime.date]. *)
Lemma fetchall_Ok (rows rows' : list Row) :
  Sql.fetchall rows = Ok rows' ↔ rows' = rows ∧ ∀ r, In r rows → Sql.loads r = true.
Proof.
  unfold Sql.fetchall. revert rows'.
  induction rows as [|r rows IH]; intros rows'; simpl.
  - split; [intros [= <-]; by split|]. by intros [-> _].
  - destruct (Sql.loads r) eqn:Hr; simpl.
    + rewrite bind_Ok. split.
      * intros (ys & (-> & Hall)%IH & [= <-]). split; [done|].
        intros x [<-|Hx]; [done|by apply Hall].
      * intros [-> Hall]. exists rows. split; [|done]. apply IH.
        split; [done|]. intros x Hx. apply Hall. by right.
    + split; [done|]. intros [_ Hall]. specialize (Hall r (or_introl eq_refl)).
      congruence.
Qed.

Lemma fetchall_loads (rows : list Row) :
  (∀ r, In r rows → Sql.loads r = true) → Sql.fetchall rows = Ok rows.
Proof. intros Hall. by apply fetchall_Ok. Qed.

Lemma fetchall_Raise (rows : list Row) (r : Row) :
  In r rows → Sql.loads r = false → ∃ e, Sql.fetchall rows = Raise e.
Proof.
  intros Hin Hr. destruct (Sql.fetchall rows) as [rows'|e] eqn:Hf; [|by eexists].
  apply fetchall_Ok in Hf as [_ Hall]. rewrite (Hall r Hin) in Hr. discriminate.
Qed.

(** ** The snapshot path *)

Section LocationsFacts.
Context `{Runtime}.
Import Sql SqlFacts.

Lemma feature_of_row_id (current_time : Z) (row : Row) (f : Feature) :
  feature_of_row current_time row = Ok f → p_id (properties f) = car row.
Proof.
  unfold feature_of_row. rewrite bind_Ok. by intros (s & _ & [= <-]).
Qed.

Lemma feature_of_row_status (current_time : Z) (row : Row) (f : Feature) :
  feature_of_row current_time row = Ok f →
  p_status (properties f) = determine_status current_time (timestamp row).
Proof.
  unfold feature_of_row. rewrite bind_Ok. by intros (s & _ & [= <-]).
Qed.

Lemma feature_of_row_Ok (current_time : Z) (row : Row) :
  is_Some (strftime_local (timestamp row)) →
  ∃ f, feature_of_row current_time row = Ok f.
Proof.
  intros [s Hs]. unfold feature_of_row. rewrite Hs. simpl. by eexists.
Qed.

Lemma feature_of_row_formats (current_time : Z) (row : Row) (f : Feature) :
  feature_of_row current_time row = Ok f → is_Some (strftime_local (timestamp row)).
Proof.
  unfold feature_of_row. destruct (strftime_local (timestamp row)); [by eexists|done].
Qed.

(** What it takes for the [try] block to return: a connection, a query that
    the server accepts, and every selected row fetched and rendered. *)
Lemma locations_try_Ok (d : database) (current_time : Z)
    (cf df dt : pyval) (features : list Feature) :
  locations_try d current_time cf df dt = Ok features ↔
  ∃ table query keep,
    d = Connected table
    ∧ locations_query cf df dt = Ok query
    ∧ where_clause query = Ok keep
    ∧ (∀ r, In r (distinct_on_car (order_by by_car_latest (List.filter keep table))) →
            loads r = true)
    ∧ traverse (feature_of_row current_time)
        (distinct_on_car (order_by by_car_latest (List.filter keep table)))
      = Ok features.
Proof.
  unfold locations_try, latest_records. split.
  - intros (conn & Hconn & Hrest)%bind_Ok.
    apply bind_Ok in Hrest as (query & Hq & Hrest).
    apply bind_Ok in Hrest as (rows & Hrows & Hfeat).
    apply bind_Ok in Hrows as (keep & Hkeep & Hrows).
    apply bind_Ok in Hrows as (table & Hscan & Hfetch).
    apply fetchall_Ok in Hfetch as [-> Hloads].
    destruct d as [e|e|table']; simpl in Hconn; [discriminate|..];
      injection Hconn as <-; simpl in Hscan; [discriminate|].
    injection Hscan as ->. by exists table, query, keep.
  - intros (table & query & keep & -> & Hq & Hkeep & Hloads & Hfeat).
    simpl. rewrite Hq. simpl. rewrite Hkeep. simpl.
    rewrite (fetchall_loads _ Hloads). exact Hfeat.
Qed.

(** The features of a snapshot, one by one: each renders the latest kept row
    of its vehicle. *)
Lemma get_truck_locations_In (d : database) (current_time : Z)
    (cf df dt : pyval) (f : Feature) :
  In f (get_truck_locations d current_time cf df dt) →
  ∃ table query keep row,
    d = Connected table
    ∧ locations_query cf df dt = Ok query
    ∧ where_clause query = Ok keep
    ∧ latest_of keep table (car row) = Some row
    ∧ feature_of_row current_time row = Ok f.
Proof.
  unfold get_truck_locations.
  destruct (locations_try d current_time cf df dt) as [features|e] eqn:Htry;
    [|done].
  apply locations_try_Ok in Htry
    as (table & query & keep & -> & Hq & Hkeep & _ & Hfeat).
  intros Hin. apply (traverse_Ok_In _ _ _ f Hfeat) in Hin as (row & Hrow & Hf).
  apply latest_rows_In in Hrow. by exists table, query, keep, row.
Qed.

Lemma feature_ids (current_time : Z) (rows : list Row) (features : list Feature) :
  traverse (feature_of_row current_time) rows = Ok features →
  map (λ f, p_id (properties f)) features = map car rows.
Proof.
  rewrite traverse_Ok.
  induction 1 as [|row f rows features Hf _ IH]; simpl; [done|].
  by rewrite (feature_of_row_id _ _ _ Hf), IH.
Qed.

Lemma get_truck_locations_NoDup (d : database) (current_time : Z) (cf df dt : pyval) :
  NoDup (map (λ f, p_id (properties f)) (get_truck_locations d current_time cf df dt)).
Proof.
  unfold get_truck_locations.
  destruct (locations_try d current_time cf df dt) as [features|e] eqn:Htry;
    [|constructor].
  apply locations_try_Ok in Htry
    as (table & query & keep & -> & Hq & Hkeep & _ & Hfeat).
  rewrite (feature_ids _ _ _ Hfeat). apply distinct_on_car_NoDup.
Qed.

End LocationsFacts.

(** ** The live channel *)

Lemma determine_status_cases (current_time timestamp : Z) :
  determine_status current_time timestamp = "stopped"
  ∨ determine_status current_time timestamp = "idle"
  ∨ determine_status current_time timestamp = "moving".
Proof.
  rewrite determine_status_seconds.
  destruct (_ <? _); [by left|]. destruct (_ <? _); [right; by left|by do 2 right].
Qed.

Lemma tallied_status_counts : tallied 0 status_counts.
Proof.
  split; [by vm_compute|]. exists 0%nat, 0%nat, 0%nat. by vm_compute.
Qed.

Lemma tally_tallied (features : list Feature) (n : nat) (counts : gmap string nat) :
  Forall (λ f, p_status (properties f) = "stopped"
               ∨ p_status (properties f) = "idle"
               ∨ p_status (properties f) = "moving") features →
  tallied n counts →
  ∃ counts', tally counts features = Ok counts'
             ∧ tallied (n + length features) counts'.
Proof.
  intros Hall. revert n counts.
  induction Hall as [|f features Hf _ IH]; intros n counts Hcounts; simpl.
  - exists counts. split; [done|]. by rewrite Nat.add_0_r.
  - destruct Hcounts as (Hdom & a & b & c & Ha & Hb & Hc & Hsum).
    replace (n + S (length features))%nat with (S n + length features)%nat by lia.
    destruct Hf as [->|[->| ->]].
    + rewrite Hc. apply IH. split.
      * rewrite dom_insert_L, Hdom. set_solver.
      * exists a, b, (c + 1)%nat. simplify_map_eq. repeat split; try done. lia.
    + rewrite Hb. apply IH. split.
      * rewrite dom_insert_L, Hdom. set_solver.
      * exists a, (b + 1)%nat, c. simplify_map_eq. repeat split; try done. lia.
    + rewrite Ha. apply IH. split.
      * rewrite dom_insert_L, Hdom. set_solver.
      * exists (a + 1)%nat, b, c. simplify_map_eq. repeat split; try done. lia.
Qed.

Section LiveFacts.
Context `{Runtime}.

Lemma get_truck_locations_status (d : database) (current_time : Z) (cf df dt : pyval) :
  Forall (λ f, p_status (properties f) = "stopped"
               ∨ p_status (properties f) = "idle"
               ∨ p_status (properties f) = "moving")
    (get_truck_locations d current_time cf df dt).
Proof.
  apply List.Forall_forall. intros f Hf.
  apply get_truck_locations_In in Hf as (_ & _ & _ & row & _ & _ & _ & _ & Hfeat).
  rewrite (feature_of_row_status _ _ _ Hfeat). apply determine_status_cases.
Qed.

(** The counting loop never meets a missing key. *)
Lemma snapshot_Ok (d : database) (current_time : Z) (st : Filters) :
  ∃ counts,
    snapshot d current_time st =
      Ok {| push_type := "FeatureCollection";
            push_features := get_truck_locations d current_time
                               (car_filter st) (date_from st) (date_to st);
            push_counts := counts |}
    ∧ tallied (length (get_truck_locations d current_time
                         (car_filter st) (date_from st) (date_to st))) counts.
Proof.
  unfold snapshot.
  destruct (tally_tallied _ 0%nat status_counts
              (get_truck_locations_status d current_time
                 (car_filter st) (date_from st) (date_to st))
              tallied_status_counts) as (counts & Htally & Hcounts).
  exists counts. by rewrite Htally.
Qed.

(** A cycle whose [send_json] succeeds pushes the snapshot and stays in the
    loop; one whose [send_json] fails pushes nothing and closes. *)
Lemma cycle_cases (c : Cycle) (st : Filters) :
  ∃ push, snapshot (db c) (now c) (receive (recv c) st) = Ok push
          ∧ cycle c st = if send_ok c
                         then (receive (recv c) st, Some push, Streaming)
                         else (receive (recv c) st, None, Closed).
Proof.
  destruct (snapshot_Ok (db c) (now c) (receive (recv c) st)) as (counts & Hsnap & _).
  eexists. split; [exact Hsnap|]. unfold cycle. by rewrite Hsnap.
Qed.

Lemma loop_pushes (P : Push → Prop) :
  (∀ c st st' push s, cycle c st = (st', Some push, s) → P push) →
  ∀ trace st, Forall P (loop trace st).1.
Proof.
  intros HP trace. induction trace as [|c rest IH]; intros st; simpl; [constructor|].
  destruct (cycle c st) as [[st' [push|]] []] eqn:Hc; simpl; try constructor.
  - specialize (IH st'). destruct (loop rest st') as [pushes s]. simpl in *.
    constructor; [by eapply HP|exact IH].
  - by eapply HP.
  - constructor.
Qed.

(** C4.  Every snapshot the loop pushes has counts with exactly the keys
    moving, idle and stopped, zero or not, and the three values add up to
    the number of features of the same snapshot. *)
Theorem pushed_counts_complete (trace : list Cycle) (st : Filters) :
  Forall (λ push,
            dom (push_counts push) = {[ "moving"; "idle"; "stopped" ]}
            ∧ ∃ moving idle stopped : nat,
                push_counts push !! "moving" = Some moving
                ∧ push_counts push !! "idle" = Some idle
                ∧ push_counts push !! "stopped" = Some stopped
                ∧ (moving + idle + stopped)%nat = length (push_features push))
    (loop trace st).1.
Proof.
  apply loop_pushes. clear trace st. intros c st st' push s Hc.
  destruct (cycle_cases c st) as (push' & Hsnap & Hcycle).
  destruct (snapshot_Ok (db c) (now c) (receive (recv c) st)) as (counts & Hsnap' & Ht).
  rewrite Hcycle in Hc. destruct (send_ok c); [|discriminate].
  injection Hc as _ <- _. rewrite Hsnap' in Hsnap. injection Hsnap as <-.
  exact Ht.
Qed.

End LiveFacts.

Section SessionFacts.
Context `{Runtime}.

Lemma get_truck_locations_down (d : database) (current_time : Z) (cf df dt : pyval) :
  down d = true → get_truck_locations d current_time cf df dt = [].
Proof.
  intros Hdown. unfold get_truck_locations.
  destruct (locations_try d current_time cf df dt) as [features|e] eqn:Htry;
    [|reflexivity].
  apply locations_try_Ok in Htry as (table & _ & _ & -> & _). discriminate.
Qed.

Lemma get_truck_history_down (d : database) (car_id : string)
    (from to : option string) :
  down d = true →
  ∃ e, get_truck_history d car_id from to =
         Raise (HTTPException 500 ("Database error: " +:+ str_exn e)).
Proof.
  intros Hdown. unfold get_truck_history, Sql.history_records.
  destruct d as [e|e|table]; [by eexists| |discriminate]. simpl.
  destruct (Sql.where_clause _); simpl; by eexists.
Qed.

(** A cycle whose snapshot is known and whose send succeeds hands the
    filters on to the rest of the loop. *)
Lemma loop_continues (c : Cycle) (rest : list Cycle) (st : Filters) (push : Push) :
  snapshot (db c) (now c) (receive (recv c) st) = Ok push →
  send_ok c = true →
  cycle c st = (receive (recv c) st, Some push, Streaming)
  ∧ loop (c :: rest) st =
      (push :: (loop rest (receive (recv c) st)).1,
       (loop rest (receive (recv c) st)).2).
Proof.
  intros Hsnap Hsend.
  assert (Hc : cycle c st = (receive (recv c) st, Some push, Streaming)).
  { unfold cycle. by rewrite Hsnap, Hsend. }
  split; [exact Hc|]. simpl. rewrite Hc. by destruct (loop rest _).
Qed.

(** C5.  When the repository fails, a live cycle whose send succeeds pushes
    a FeatureCollection with no feature and the three counts at zero, and
    the loop goes on to the next cycle with the filters it has; the
    history endpoint answers the same failure with an HTTPException of
    status 500, a message built from the exception, and no rows. *)
Theorem repository_failure (c : Cycle) (st : Filters) (rest : list Cycle)
    (car_id : string) (from to : option string) :
  down (db c) = true →
  send_ok c = true →
  let empty := {| push_type := "FeatureCollection";
                  push_features := [];
                  push_counts := {[ "moving" := 0%nat; "idle" := 0%nat;
                                    "stopped" := 0%nat ]} |} in
  cycle c st = (receive (recv c) st, Some empty, Streaming)
  ∧ loop (c :: rest) st =
      (empty :: (loop rest (receive (recv c) st)).1,
       (loop rest (receive (recv c) st)).2)
  ∧ ∃ e, get_truck_history (db c) car_id from to =
           Raise (HTTPException 500 ("Database error: " +:+ str_exn e)).
Proof.
  intros Hdown Hsend empty.
  destruct (loop_continues c rest st empty) as [Hc Hl]; [|exact Hsend|].
  { unfold snapshot. by rewrite (get_truck_locations_down _ _ _ _ _ Hdown). }
  split; [exact Hc|]. split; [exact Hl|].
  by apply get_truck_history_down.
Qed.

(** The three assignments, for a message of that form. *)
Lemma on_message_update (d filters : gmap string pyval) (st : Filters) :
  d !! "filters" = Some (PDict filters) →
  on_message (PDict d) st =
    ({| car_filter := default (car_filter st) (filters !! "car");
        date_from := default (date_from st) (filters !! "dateFrom");
        date_to := default (date_to st) (filters !! "dateTo") |}, Ok ()).
Proof.
  intros Hd. unfold on_message. simpl.
  assert (Hne : bool_decide (d = ∅) = false).
  { apply bool_decide_eq_false. intros ->. by rewrite lookup_empty in Hd. }
  rewrite Hne. simpl.
  unfold mbind, stmt_bind, eval, assign. simpl.
  rewrite bool_decide_eq_true_2 by (by rewrite Hd).
  by rewrite Hd.
Qed.

(** Any other value leaves the variables as they are, whether the
    statements raise or not. *)
Lemma on_message_malformed (data : pyval) (st : Filters) :
  well_formed_update data = false → (on_message data st).1 = st.
Proof.
  intros Hwf. unfold on_message.
  destruct (Py.truthy data) eqn:Htruthy; [|reflexivity].
  unfold mbind, stmt_bind, eval, assign.
  destruct data as [| | | |s|l|d]; simpl in *; try reflexivity.
  - by destruct (Py.str_contains "filters" s).
  - by destruct (existsb (Py.is_str "filters") l).
  - destruct (d !! "filters") as [v|] eqn:Hd.
    + rewrite bool_decide_eq_true_2 by done.
      by destruct v.
    + rewrite bool_decide_eq_false_2; [done|]. by intros [v Hv].
Qed.

(** C6.  A well-formed update is merged field by field: a key present in
    [filters] replaces the variable, an omitted key leaves the variable as
    it was.  In particular [{filters: {car: "X"}}] leaves [date_from] and
    [date_to] unchanged. *)
Theorem filter_update_merges (d filters : gmap string pyval) (st : Filters) :
  d !! "filters" = Some (PDict filters) →
  let st' := receive (Json (PDict d)) st in
  (∀ v, filters !! "car" = Some v → car_filter st' = v)
  ∧ (∀ v, filters !! "dateFrom" = Some v → date_from st' = v)
  ∧ (∀ v, filters !! "dateTo" = Some v → date_to st' = v)
  ∧ (filters !! "car" = None → car_filter st' = car_filter st)
  ∧ (filters !! "dateFrom" = None → date_from st' = date_from st)
  ∧ (filters !! "dateTo" = None → date_to st' = date_to st)
  ∧ (filters = {[ "car" := PStr "X" ]} →
     car_filter st' = PStr "X"
     ∧ date_from st' = date_from st ∧ date_to st' = date_to st).
Proof.
  intros Hd st'. subst st'. simpl. rewrite (on_message_update _ _ _ Hd). simpl.
  split_and!; try (intros v Hv; by rewrite Hv); intros Hv; by rewrite Hv.
Qed.

(** C7.  A malformed client message leaves the three filter variables as
    they were, and the session stays in the loop: the cycle pushes its
    snapshot under the old filters and the next cycle starts from them. *)
Theorem malformed_message_ignored (c : Cycle) (rest : list Cycle) (st : Filters) :
  malformed (recv c) →
  send_ok c = true →
  receive (recv c) st = st
  ∧ ∃ push,
      snapshot (db c) (now c) st = Ok push
      ∧ cycle c st = (st, Some push, Streaming)
      ∧ loop (c :: rest) st = (push :: (loop rest st).1, (loop rest st).2).
Proof.
  intros Hmal Hsend.
  assert (Hst : receive (recv c) st = st).
  { destruct Hmal as [e|data Hwf]; simpl; [reflexivity|].
    by apply on_message_malformed. }
  split; [exact Hst|].
  destruct (cycle_cases c st) as (push & Hsnap & _).
  destruct (loop_continues c rest st push Hsnap Hsend) as [Hc Hl].
  rewrite Hst in *. by exists push.
Qed.

End SessionFacts.

(** ** Python strings *)

Module PyFacts.
Import Py.

Lemma str_contains_comma (c : ascii) (s : string) :
  str_contains "," (String c s) = Ascii.eqb c "," || str_contains "," s.
Proof.
  change (str_contains "," (String c s))
    with ((if ascii_dec "," c then String.prefix "" s else false)
          || str_contains "," s).
  destruct (ascii_dec "," c) as [<-|Hne]; [by destruct s|].
  destruct (Ascii.eqb_spec c ","); [congruence|reflexivity].
Qed.

Lemma str_contains_comma_app (a b : string) :
  str_contains "," (a +:+ b) = str_contains "," a || str_contains "," b.
Proof.
  induction a as [|c a IH].
  - by destruct b.
  - change (String c a +:+ b) with (String c (a +:+ b)).
    rewrite !str_contains_comma, IH. by rewrite orb_assoc.
Qed.

Lemma split_no_comma (s : string) :
  str_contains "," s = false → split "," s = [s].
Proof.
  induction s as [|c s IH]; [reflexivity|].
  rewrite str_contains_comma. intros [Hc Hs]%orb_false_iff.
  simpl. rewrite Hc, (IH Hs). reflexivity.
Qed.

(** Up to its first comma a string is the first piece. *)
Lemma split_first (a rest : string) :
  str_contains "," a = false →
  split "," (a +:+ String "," rest) = a :: split "," rest.
Proof.
  induction a as [|c a IH]; [reflexivity|].
  rewrite str_contains_comma. intros [Hc Ha]%orb_false_iff.
  change (String c a +:+ String "," rest) with (String c (a +:+ String "," rest)).
  simpl. rewrite Hc, (IH Ha). reflexivity.
Qed.

Lemma lstrip_no_comma (s : string) :
  str_contains "," s = false → str_contains "," (lstrip s) = false.
Proof.
  induction s as [|c s IH]; [done|].
  intros Hs. simpl lstrip. destruct (isspace c); [|exact Hs].
  apply IH. rewrite str_contains_comma in Hs. by apply orb_false_iff in Hs as [_ ?].
Qed.

Lemma rstrip_no_comma (s : string) :
  str_contains "," s = false → str_contains "," (rstrip s) = false.
Proof.
  induction s as [|c s IH]; [done|].
  rewrite str_contains_comma. intros [Hc Hs]%orb_false_iff.
  specialize (IH Hs). simpl rstrip. destruct (rstrip s) as [|c' r].
  - destruct (isspace c); [done|]. rewrite str_contains_comma, Hc. done.
  - rewrite str_contains_comma, Hc. exact IH.
Qed.

Lemma strip_no_comma (s : string) :
  str_contains "," s = false → str_contains "," (strip s) = false.
Proof.
  intros Hs. by apply rstrip_no_comma, lstrip_no_comma.
Qed.

Lemma strip_space (s : string) : strip (String " " s) = strip s.
Proof. reflexivity. Qed.

Lemma nonempty_true (s : string) : nonempty s = true ↔ s ≠ "".
Proof.
  unfold nonempty. rewrite negb_true_iff. apply String.eqb_neq.
Qed.

Lemma truthy_PStr (s : string) : truthy (PStr s) = nonempty s.
Proof. reflexivity. Qed.






End PyFacts.

(** ** The car filter *)

Section CarFilterFacts.
Context `{Runtime}.
Import Sql SqlFacts PyFacts.

Lemma where_clause_cons_Ok (c : cond) (cs : list cond) (keep : Row → bool) :
  where_clause (c :: cs) = Ok keep ↔
  ∃ p k, eval_cond c = Ok p ∧ where_clause cs = Ok k ∧ keep = λ r, p r && k r.
Proof.
  unfold where_clause. simpl.
  destruct (eval_cond c) as [p|e]; simpl.
  2:{ split; [done|]. by intros (? & ? & [=] & _). }
  destruct (traverse eval_cond cs) as [ps|e]; simpl.
  2:{ split; [done|]. by intros (? & ? & _ & [=] & _). }
  split.
  - intros [= <-]. by eexists _, _.
  - by intros (p' & k & [= <-] & [= <-] & ->).
Qed.

Lemma where_clause_cons_Raise (c : cond) (cs : list cond) (p : Row → bool) (e : exn) :
  eval_cond c = Ok p → where_clause cs = Raise e → where_clause (c :: cs) = Raise e.
Proof.
  unfold where_clause. simpl. intros ->. simpl.
  by destruct (traverse eval_cond cs).
Qed.

Lemma eval_cond_CarIn (ids : list string) :
  existsb has_nul ids = false →
  eval_cond (CarIn ids) = Ok (λ r, existsb (String.eqb (car r)) ids).
Proof. intros Hids. simpl. by rewrite Hids. Qed.

Lemma eval_cond_CarEq (s : string) :
  has_nul s = false → eval_cond (CarEq (PStr s)) = Ok (same_car s).
Proof. intros Hs. simpl. unfold car_is. by rewrite Hs. Qed.

Lemma eval_cond_CarIn_Ok (ids : list string) (p : Row → bool) :
  eval_cond (CarIn ids) = Ok p →
  existsb has_nul ids = false ∧ p = λ r, existsb (String.eqb (car r)) ids.
Proof. simpl. destruct (existsb has_nul ids); [done|]. by intros [= <-]. Qed.

Lemma eval_cond_CarEq_Ok (s : string) (p : Row → bool) :
  eval_cond (CarEq (PStr s)) = Ok p → has_nul s = false ∧ p = same_car s.
Proof. simpl. unfold car_is. destruct (has_nul s); [done|]. by intros [= <-]. Qed.

Lemma eval_cond_CarIn_Raise (ids : list string) :
  existsb has_nul ids = true → eval_cond (CarIn ids) = Raise DataError.
Proof. simpl. by intros ->. Qed.

Lemma where_clause_head_Raise (c : cond) (cs : list cond) (e : exn) :
  eval_cond c = Raise e → where_clause (c :: cs) = Raise e.
Proof. unfold where_clause. simpl. by intros ->. Qed.

Lemma get_truck_locations_connected (table : list Row) (current_time : Z)
    (cf df dt : pyval) (query : list cond) (keep : Row → bool) :
  locations_query cf df dt = Ok query →
  where_clause query = Ok keep →
  get_truck_locations (Connected table) current_time cf df dt =
    match
      rows ← fetchall
               (distinct_on_car (order_by by_car_latest (List.filter keep table)));
      traverse (feature_of_row current_time) rows
    with
    | Ok features => features
    | Raise _ => []
    end.
Proof.
  intros Hq Hk. unfold get_truck_locations, locations_try, latest_records.
  simpl. rewrite Hq. simpl. rewrite Hk. reflexivity.
Qed.

Lemma get_truck_locations_rejected (table : list Row) (current_time : Z)
    (cf df dt : pyval) (query : list cond) (e : exn) :
  locations_query cf df dt = Ok query →
  where_clause query = Raise e →
  get_truck_locations (Connected table) current_time cf df dt = [].
Proof.
  intros Hq Hk. unfold get_truck_locations, locations_try, latest_records.
  simpl. rewrite Hq. simpl. rewrite Hk. reflexivity.
Qed.

(** When the kept rows can all be rendered, the features are exactly the
    renderings of the vehicles' latest kept rows. *)
Lemma get_truck_locations_iff (table : list Row) (current_time : Z)
    (cf df dt : pyval) (query : list cond) (keep : Row → bool) (f : Feature) :
  locations_query cf df dt = Ok query →
  where_clause query = Ok keep →
  (∀ r, In r table → keep r = true → renders r) →
  In f (get_truck_locations (Connected table) current_time cf df dt)
  ↔ ∃ row, latest_of keep table (car row) = Some row
           ∧ feature_of_row current_time row = Ok f.
Proof.
  intros Hq Hk Hfmt. rewrite (get_truck_locations_connected _ _ _ _ _ _ _ Hq Hk).
  rewrite fetchall_loads.
  2:{ intros x Hx.
      apply latest_rows_In, latest_of_Some in Hx as (Hin & Hkx & _).
      by apply Hfmt. }
  simpl.
  destruct (traverse_total (feature_of_row current_time)
              (distinct_on_car (order_by by_car_latest (List.filter keep table))))
    as [features Hfeat].
  { intros x Hx. apply feature_of_row_Ok.
    apply latest_rows_In, latest_of_Some in Hx as (Hin & Hkx & _). by apply Hfmt. }
  rewrite Hfeat, (traverse_Ok_In _ _ _ f Hfeat).
  split; intros (row & Hrow & Hf); exists row; split; try done;
    by apply latest_rows_In.
Qed.

(** Every vehicle with a kept row is in the snapshot. *)
Lemma get_truck_locations_covers (table : list Row) (current_time : Z)
    (cf df dt : pyval) (query : list cond) (keep : Row → bool) (r : Row) :
  locations_query cf df dt = Ok query →
  where_clause query = Ok keep →
  (∀ r, In r table → keep r = true → renders r) →
  In r table → keep r = true →
  ∃ f, In f (get_truck_locations (Connected table) current_time cf df dt)
       ∧ p_id (properties f) = car r.
Proof.
  intros Hq Hk Hfmt Hr Hkr.
  destruct (latest_of_is_Some keep table r Hr Hkr) as [x Hx].
  pose proof (latest_of_Some _ _ _ _ Hx) as (Hin & Hkx & Hcar & _).
  destruct (feature_of_row_Ok current_time x) as [f Hf]; [by apply Hfmt|].
  exists f. split.
  - apply (get_truck_locations_iff _ _ _ _ _ _ _ _ Hq Hk Hfmt).
    exists x. by rewrite Hcar.
  - rewrite (feature_of_row_id _ _ _ Hf). exact Hcar.
Qed.

Lemma locations_query_none (df dt : pyval) :
  locations_query PNone df dt = Ok (date_clauses df dt).
Proof. reflexivity. Qed.

Lemma locations_query_single (a : string) (df dt : pyval) :
  a ≠ "" → Py.str_contains "," a = false →
  locations_query (PStr a) df dt = Ok (CarEq (PStr a) :: date_clauses df dt).
Proof.
  intros Ha Hcomma. unfold locations_query.
  rewrite truthy_PStr, (proj2 (nonempty_true a) Ha). simpl. by rewrite Hcomma.
Qed.

Lemma locations_query_tokens (s : string) (df dt : pyval) :
  Py.str_contains "," s = true →
  locations_query (PStr s) df dt =
    Ok (match List.filter Py.nonempty (map Py.strip (Py.split "," s)) with
        | [] => []
        | ids => [CarIn ids]
        end ++ date_clauses df dt).
Proof.
  intros Hcomma. unfold locations_query.
  assert (Hs : Py.truthy (PStr s) = true).
  { destruct s; [discriminate|reflexivity]. }
  rewrite Hs. simpl. rewrite Hcomma. simpl.
  by destruct (List.filter _ _).
Qed.

(** A filter variable that is [None] has no clause in the query. *)
Lemma locations_query_clauses (cf df dt : pyval) (query : list cond) :
  locations_query cf df dt = Ok query →
  (cf = PNone → Forall (λ c, restricts_car c = false) query)
  ∧ (df = PNone → Forall (λ c, restricts_from c = false) query)
  ∧ (dt = PNone → Forall (λ c, restricts_to c = false) query).
Proof.
  unfold locations_query, date_clauses.
  intros (by_car & Hcar & [= <-])%bind_Ok.
  assert (Hdates : Forall (λ c, restricts_from c = false ∧ restricts_to c = false)
                     by_car).
  { destruct (Py.truthy cf); [|injection Hcar as <-; constructor].
    apply bind_Ok in Hcar as ([] & _ & Hids).
    - apply bind_Ok in Hids as ([|id ids] & _ & [= <-]); by repeat constructor.
    - injection Hids as <-. by repeat constructor. }
  split_and!; intros ->; simpl in *.
  - injection Hcar as <-. simpl.
    destruct (Py.truthy df), (Py.truthy dt); by repeat constructor.
  - apply Forall_app. split.
    + eapply Forall_impl; [exact Hdates|]. by intros c [? _].
    + destruct (Py.truthy dt); by repeat constructor.
  - rewrite app_nil_r. apply Forall_app. split.
    + eapply Forall_impl; [exact Hdates|]. by intros c [_ ?].
    + destruct (Py.truthy df); by repeat constructor.
Qed.

End CarFilterFacts.

Section CarFilterClaims.
Context `{Runtime}.
Import Sql SqlFacts PyFacts.


Lemma traverse_app {A B : Type} (f : A → result B) (l1 l2 : list A) (ys : list B) :
  traverse f (l1 ++ l2) = Ok ys ↔
  ∃ ys1 ys2, traverse f l1 = Ok ys1 ∧ traverse f l2 = Ok ys2 ∧ ys = ys1 ++ ys2.
Proof.
  rewrite traverse_Ok. split.
  - intros (ys1 & ys2 & H1 & H2 & ->)%Forall2_app_inv_l.
    exists ys1, ys2. by rewrite !traverse_Ok.
  - intros (ys1 & ys2 & H1%traverse_Ok & H2%traverse_Ok & ->).
    by apply Forall2_app.
Qed.

(** The WHERE clause of two lists of clauses keeps what both keep. *)
Lemma where_clause_app (cs1 cs2 : list cond) (keep : Row → bool) :
  where_clause (cs1 ++ cs2) = Ok keep →
  ∃ k1 k2, where_clause cs1 = Ok k1 ∧ where_clause cs2 = Ok k2
           ∧ ∀ r, keep r = k1 r && k2 r.
Proof.
  unfold where_clause. intros (ps & Hps & [= <-])%bind_Ok.
  apply traverse_app in Hps as (ps1 & ps2 & H1 & H2 & ->).
  rewrite H1, H2. simpl. eexists _, _. split_and!; [done..|].
  intros r. apply forallb_app.
Qed.

(** The clause on [car] is the one the requested ids call for. *)
Lemma car_clause_requested (car_filter : option string) (df dt : pyval)
    (query : list cond) (keep : Row → bool) :
  locations_query (of_query car_filter) df dt = Ok query →
  where_clause query = Ok keep →
  ∃ kc kd,
    where_clause (date_clauses df dt) = Ok kd
    ∧ (∀ r, keep r = kc r && kd r)
    ∧ ∀ r, kc r = match requested_ids car_filter with
                  | [] => true
                  | _ :: _ => existsb (String.eqb (car r)) (requested_ids car_filter)
                  end.
Proof.
  intros Hq Hk. destruct car_filter as [s|]; simpl in Hq.
  2:{ injection Hq as <-. exists (λ _, true), keep. by split_and!. }
  unfold requested_ids. destruct (Py.str_contains "," s) eqn:Hcomma.
  - rewrite (locations_query_tokens _ _ _ Hcomma) in Hq.
    destruct (List.filter Py.nonempty (map Py.strip (Py.split "," s)))
      as [|t ts]; injection Hq as <-.
    + exists (λ _, true), keep. by split_and!.
    + apply where_clause_cons_Ok in Hk as (p & kd & [_ ->]%eval_cond_CarIn_Ok & Hkd & ->).
      by exists (λ r, existsb (String.eqb (car r)) (t :: ts)), kd.
  - destruct (String.eqb_spec s "") as [->|Hne].
    + injection Hq as <-. exists (λ _, true), keep. by split_and!.
    + rewrite (locations_query_single _ _ _ Hne Hcomma) in Hq. injection Hq as <-.
      apply where_clause_cons_Ok in Hk as (p & kd & [_ ->]%eval_cond_CarEq_Ok & Hkd & ->).
      rewrite (proj2 (nonempty_true s) Hne).
      exists (same_car s), kd. split_and!; [done..|].
      intros r. unfold same_car. simpl. by rewrite orb_false_r.
Qed.

(** The clause on one side of [date] is the one the requested bound calls
    for; the server has read the bound when the clause is accepted. *)
Lemma bound_clause_requested (p : option string) (mk : pyval → cond)
    (test : Z → Z → bool) (k : Row → bool) :
  (∀ v, eval_cond (mk v) =
          d ← date_param v;
          Ok (λ r, match d with Some d => test d (date r) | None => false end)) →
  where_clause (if Py.truthy (of_query p) then [mk (of_query p)] else []) = Ok k →
  ∃ bound, requested_bound p = Some bound
           ∧ ∀ r, k r = match bound with Some d => test d (date r) | None => true end.
Proof.
  intros Hmk Hk. destruct p as [s|]; simpl in *.
  2:{ injection Hk as <-. by exists None. }
  fold (Py.nonempty s) in Hk. destruct (Py.nonempty s).
  2:{ injection Hk as <-. by exists None. }
  apply where_clause_cons_Ok in Hk as (q & k' & Hq & [= <-] & ->).
  rewrite Hmk in Hq. simpl in Hq. unfold date_is in Hq.
  destruct (date_in s) as [day|]; [|discriminate]. simpl in Hq.
  injection Hq as <-. exists (Some day). split; [done|].
  intros r. apply andb_true_r.
Qed.

(** The WHERE clause of a request keeps the rows that satisfy the filter
    the request stands for. *)
Lemma where_clause_requested (car_filter date_from date_to : option string)
    (query : list cond) (keep : Row → bool) :
  locations_query (of_query car_filter) (of_query date_from) (of_query date_to)
    = Ok query →
  where_clause query = Ok keep →
  ∃ flt, requested_filter car_filter date_from date_to = Some flt
         ∧ ∀ r, keep r = satisfies flt r.
Proof.
  intros Hq Hk.
  destruct (car_clause_requested _ _ _ _ _ Hq Hk) as (kc & kd & Hkd & Hkeep & Hkc).
  unfold date_clauses in Hkd.
  apply where_clause_app in Hkd as (klo & khi & Hklo & Hkhi & Hkd).
  apply (bound_clause_requested date_from DateGe Z.leb) in Hklo
    as (lo & Hlo & Hklo); [|done].
  apply (bound_clause_requested date_to DateLe (λ d x, x <=? d)) in Hkhi
    as (hi & Hhi & Hkhi); [|done].
  unfold requested_filter. rewrite Hlo, Hhi. simpl. eexists. split; [done|].
  intros r. unfold satisfies. simpl.
  by rewrite Hkeep, Hkc, Hkd, Hklo, Hkhi, andb_assoc.
Qed.

(** C3.  Whatever the filter values and the database, a snapshot has at
    most one feature per vehicle id.  When the filter values are those of a
    request (each a string or absent), every feature renders a row of the
    table that satisfies the filter the request stands for (its car among
    the requested ids when there are any, its date within the requested
    bounds), and no row of the same vehicle that satisfies the filter has a
    later timestamp. *)
Theorem snapshot_one_latest_per_vehicle (d : database) (current_time : Z) :
  (∀ cf df dt : pyval,
     NoDup (map (λ f, p_id (properties f))
              (get_truck_locations d current_time cf df dt)))
  ∧ ∀ (car_filter date_from date_to : option string) (f : Feature),
      In f (get_truck_locations d current_time (of_query car_filter)
              (of_query date_from) (of_query date_to)) →
      ∃ flt table row,
        requested_filter car_filter date_from date_to = Some flt
        ∧ d = Connected table
        ∧ In row table
        ∧ satisfies flt row = true
        ∧ feature_of_row current_time row = Ok f
        ∧ p_id (properties f) = car row
        ∧ ∀ r, In r table → satisfies flt r = true → car r = car row →
               timestamp r ≤ timestamp row.
Proof.
  split; [intros cf df dt; apply get_truck_locations_NoDup|].
  intros car_filter date_from date_to f Hf.
  apply get_truck_locations_In in Hf
    as (table & query & keep & row & -> & Hq & Hkeep & Hlatest & Hfeat).
  destruct (where_clause_requested _ _ _ _ _ Hq Hkeep) as (flt & Hflt & Hsat).
  apply latest_of_Some in Hlatest as (Hin & Hk & _ & Hmax).
  exists flt, table, row. split_and!; try done.
  - by rewrite <- Hsat.
  - by apply feature_of_row_id in Hfeat.
  - intros r Hr Hr'. apply Hmax; [done|]. by rewrite Hsat.
Qed.


(** C9.  In an update, a key that is present with the value null sets its
    filter variable to [None], whatever the variable held, and a variable
    that is [None] adds no clause to the query: no clause on [car] for the
    car filter, no lower bound for [date_from], no upper bound for
    [date_to].  Only a key that is absent leaves its variable as it was. *)
Theorem null_clears_filter (d filters : gmap string pyval) (st : Filters) :
  d !! "filters" = Some (PDict filters) →
  let st' := receive (Json (PDict d)) st in
  (filters !! "car" = Some PNone → car_filter st' = PNone)
  ∧ (filters !! "dateFrom" = Some PNone → date_from st' = PNone)
  ∧ (filters !! "dateTo" = Some PNone → date_to st' = PNone)
  ∧ (filters !! "car" = None → car_filter st' = car_filter st)
  ∧ (filters !! "dateFrom" = None → date_from st' = date_from st)
  ∧ (filters !! "dateTo" = None → date_to st' = date_to st)
  ∧ ∀ query,
      locations_query (car_filter st') (date_from st') (date_to st') = Ok query →
      (car_filter st' = PNone → Forall (λ c, restricts_car c = false) query)
      ∧ (date_from st' = PNone → Forall (λ c, restricts_from c = false) query)
      ∧ (date_to st' = PNone → Forall (λ c, restricts_to c = false) query).
Proof.
  intros Hd st'. subst st'. simpl. rewrite (on_message_update _ _ _ Hd). simpl.
  split_and!; try (intros Hv; by rewrite Hv).
  intros query. apply locations_query_clauses.
Qed.

(** The WHERE clause of a list of ids and of one id, over the same date
    clauses. *)
Lemma where_clause_car (c : cond) (p : Row → bool) (dates : list cond)
    (kd : Row → bool) :
  eval_cond c = Ok p → where_clause dates = Ok kd →
  where_clause (c :: dates) = Ok (λ r, p r && kd r).
Proof.
  intros Hp Hkd. apply where_clause_cons_Ok. by exists p, kd.
Qed.



End CarFilterClaims.

(* ===================================================================== *)
(** * Further properties of the code *)
(* ===================================================================== *)

(** ** The classifier, read backwards *)

(** X1.  Each status tells the age in whole seconds: stopped exactly when
    the position is more than 3600 seconds old, idle exactly when it is
    more than 1800 and at most 3600 seconds old, moving exactly when it is
    at most 1800 seconds old (a timestamp in the future included). *)
Theorem determine_status_thresholds (current_time timestamp : Z) :
  (determine_status current_time timestamp = "stopped"
   ↔ 3600 < current_time - timestamp)
  ∧ (determine_status current_time timestamp = "idle"
     ↔ 1800 < current_time - timestamp ≤ 3600)
  ∧ (determine_status current_time timestamp = "moving"
     ↔ current_time - timestamp ≤ 1800).
Proof.
  rewrite determine_status_seconds.
  destruct (Z.ltb_spec 3600 (current_time - timestamp));
    [|destruct (Z.ltb_spec 1800 (current_time - timestamp))];
    split_and!; split; intros; try discriminate; try reflexivity; lia.
Qed.

(** X2.  A position never looks fresher as the clock advances, and of two
    positions the older one never looks fresher: once stopped it stays
    stopped, and what is moving later was moving before. *)
Theorem determine_status_monotone (now1 now2 ts1 ts2 : Z) :
  now1 - ts1 ≤ now2 - ts2 →
  (determine_status now1 ts1 = "stopped" → determine_status now2 ts2 = "stopped")
  ∧ (determine_status now2 ts2 = "moving" → determine_status now1 ts1 = "moving")
  ∧ (determine_status now1 ts1 = "idle" → determine_status now2 ts2 ≠ "moving").
Proof.
  intros Hage. rewrite !determine_status_seconds.
  repeat match goal with
         | |- context [?a <? ?b] => destruct (Z.ltb_spec a b)
         end; split_and!; intros; try discriminate; try reflexivity; lia.
Qed.

(** ** The counts of a push *)

Lemma count_status_cons (s : string) (f : Feature) (features : list Feature) :
  count_status s (f :: features) =
    ((if String.eqb (p_status (properties f)) s then 1 else 0)
     + count_status s features)%nat.
Proof.
  unfold count_status. simpl. by destruct (String.eqb _ s).
Qed.

(** The counting loop adds, under every key, the number of features with
    that status; it adds no key. *)
Lemma tally_lookup (features : list Feature) (counts counts' : gmap string nat)
    (s : string) :
  tally counts features = Ok counts' →
  counts' !! s = (λ n, (n + count_status s features)%nat) <$> counts !! s.
Proof.
  revert counts. induction features as [|f features IH]; intros counts; simpl.
  - intros [= <-]. unfold count_status. simpl.
    destruct (counts !! s); simpl; [f_equal; lia|done].
  - destruct (counts !! p_status (properties f)) as [n|] eqn:Hn; [|discriminate].
    intros Htally. rewrite (IH _ Htally), count_status_cons.
    destruct (String.eqb_spec (p_status (properties f)) s) as [<-|Hne].
    + rewrite lookup_insert_eq, Hn. simpl. f_equal. lia.
    + rewrite lookup_insert_ne by done. destruct (counts !! s); simpl; [|done].
      f_equal.
Qed.

Section CountFacts.
Context `{Runtime}.

(** X3.  In every snapshot the loop pushes, the count under each of the
    three keys is the number of features of that snapshot with that
    status. *)
Theorem pushed_counts_per_status (trace : list Cycle) (st : Filters) :
  Forall (λ push,
            ∀ s, s ∈ ["moving"; "idle"; "stopped"] →
                 push_counts push !! s = Some (count_status s (push_features push)))
    (loop trace st).1.
Proof.
  apply loop_pushes. clear trace st. intros c st st' push s Hc key Hkey.
  destruct (cycle_cases c st) as (push' & Hsnap & Hcycle).
  rewrite Hcycle in Hc. destruct (send_ok c); [|discriminate].
  injection Hc as _ <- _.
  unfold snapshot in Hsnap. apply bind_Ok in Hsnap as (counts & Htally & [= <-]).
  simpl. rewrite (tally_lookup _ _ _ key Htally).
  set_unfold in Hkey. destruct Hkey as [->|[->|[->|[]]]]; reflexivity.
Qed.

End CountFacts.

(** ** What ends a session *)

Section LoopFacts.
Context `{Runtime}.

(** X4.  Whatever the client sent and whatever state the repository is in,
    a cycle stays in the loop exactly when its send succeeds, and then it
    has pushed the snapshot for the filters as that same cycle's message
    left them; a cycle whose send fails pushes nothing. *)
Theorem cycle_ends_only_on_send (c : Cycle) (st : Filters) :
  ∃ pushed session,
    cycle c st = (receive (recv c) st, pushed, session)
    ∧ (session = Streaming ↔ send_ok c = true)
    ∧ (session = Closed ↔ send_ok c = false)
    ∧ (pushed = None ↔ send_ok c = false)
    ∧ ∀ push, pushed = Some push →
        push_type push = "FeatureCollection"
        ∧ push_features push =
            get_truck_locations (db c) (now c)
              (car_filter (receive (recv c) st))
              (date_from (receive (recv c) st))
              (date_to (receive (recv c) st)).
Proof.
  destruct (cycle_cases c st) as (push & Hsnap & ->).
  destruct (snapshot_Ok (db c) (now c) (receive (recv c) st)) as (counts & Hsnap' & _).
  rewrite Hsnap' in Hsnap. injection Hsnap as <-.
  destruct (send_ok c); eexists _, _; (split; [reflexivity|]);
    split_and!; try (split; congruence); try done.
  by intros push [= <-].
Qed.

(** A run of cycles whose sends all succeed, followed by more cycles: the
    pushes of the run, then the rest of the loop from the filters the run
    left. *)
Lemma loop_app (pre rest : list Cycle) (st : Filters) :
  Forall (λ c, send_ok c = true) pre →
  loop (pre ++ rest) st =
    ((loop pre st).1 ++ (loop rest (filters_after pre st)).1,
     (loop rest (filters_after pre st)).2).
Proof.
  intros Hpre. revert st. induction Hpre as [|c pre Hc _ IH]; intros st.
  - simpl. by destruct (loop rest st).
  - destruct (cycle_cases c st) as (push & Hsnap & _).
    destruct (loop_continues c (pre ++ rest) st push Hsnap Hc) as [_ Hl].
    destruct (loop_continues c pre st push Hsnap Hc) as [_ Hl'].
    change ((c :: pre) ++ rest) with (c :: pre ++ rest).
    rewrite Hl, Hl', IH. reflexivity.
Qed.

Lemma loop_all_sent (trace : list Cycle) (st : Filters) :
  Forall (λ c, send_ok c = true) trace →
  length (loop trace st).1 = length trace ∧ (loop trace st).2 = Streaming.
Proof.
  intros Hall. revert st. induction Hall as [|c trace Hc _ IH]; intros st; [done|].
  destruct (cycle_cases c st) as (push & Hsnap & _).
  destruct (loop_continues c trace st push Hsnap Hc) as [_ ->]. simpl.
  destruct (IH (receive (recv c) st)) as [-> ->]. done.
Qed.

(** X5.  While every send succeeds the loop makes one push per cycle and is
    still streaming afterwards, whatever was received and whatever the
    repository did in between. *)
Theorem loop_streams (trace : list Cycle) (st : Filters) :
  Forall (λ c, send_ok c = true) trace →
  length (loop trace st).1 = length trace ∧ (loop trace st).2 = Streaming.
Proof. apply loop_all_sent. Qed.

(** X6.  The first send that fails closes the session: the pushes are those
    of the cycles before it, and nothing the environment does afterwards
    is looked at. *)
Theorem loop_closes_at_failed_send (pre rest : list Cycle) (c : Cycle) (st : Filters) :
  Forall (λ c, send_ok c = true) pre →
  send_ok c = false →
  loop (pre ++ c :: rest) st = ((loop pre st).1, Closed)
  ∧ length (loop (pre ++ c :: rest) st).1 = length pre.
Proof.
  intros Hpre Hc.
  assert (Hl : loop (pre ++ c :: rest) st = ((loop pre st).1, Closed)).
  { rewrite (loop_app _ _ _ Hpre).
    destruct (cycle_cases c (filters_after pre st)) as (push & _ & Hcycle).
    rewrite Hc in Hcycle. simpl. rewrite Hcycle. simpl. by rewrite app_nil_r. }
  split; [exact Hl|]. rewrite Hl. simpl. by apply loop_all_sent.
Qed.

(** X7.  A filter update stays in force: in a run whose sends succeed, the
    last push is the snapshot under the filters that all the messages
    received so far have built up, in the order they arrived. *)
Theorem loop_last_push (pre : list Cycle) (c : Cycle) (st : Filters) :
  Forall (λ c, send_ok c = true) (pre ++ [c]) →
  ∃ push,
    (loop (pre ++ [c]) st).1 = (loop pre st).1 ++ [push]
    ∧ push_features push =
        get_truck_locations (db c) (now c)
          (car_filter (filters_after (pre ++ [c]) st))
          (date_from (filters_after (pre ++ [c]) st))
          (date_to (filters_after (pre ++ [c]) st)).
Proof.
  intros [Hpre Hc]%Forall_app. rewrite Forall_singleton in Hc.
  rewrite (loop_app _ _ _ Hpre).
  unfold filters_after. rewrite fold_left_app. simpl.
  fold (filters_after pre st).
  destruct (cycle_cases c (filters_after pre st)) as (push & Hsnap & Hcycle).
  rewrite Hc in Hcycle. rewrite Hcycle. simpl. exists push. split; [done|].
  destruct (snapshot_Ok (db c) (now c) (receive (recv c) (filters_after pre st)))
    as (counts & Hsnap' & _).
  rewrite Hsnap' in Hsnap. by injection Hsnap as <-.
Qed.

(** X8.  The first push of a session that has received nothing carries the
    features [GET /api/trucks] answers for the same query parameters, at
    the same time and database. *)
Theorem first_push_is_get_trucks (car from to : option string) (c : Cycle)
    (rest : list Cycle) :
  recv c = Timeout →
  send_ok c = true →
  ∃ push pushes,
    (websocket_endpoint car from to (c :: rest)).1 = push :: pushes
    ∧ push_features push =
        collection_features (get_trucks (db c) (now c) car from to).
Proof.
  intros Hrecv Hsend. unfold websocket_endpoint.
  set (st := {| car_filter := of_query car; date_from := of_query from;
                date_to := of_query to |}).
  destruct (cycle_cases c st) as (push & Hsnap & _).
  destruct (loop_continues c rest st push Hsnap Hsend) as [_ ->].
  exists push. eexists. split; [reflexivity|].
  destruct (snapshot_Ok (db c) (now c) (receive (recv c) st)) as (counts & Hsnap' & _).
  rewrite Hsnap' in Hsnap. injection Hsnap as <-. simpl. by rewrite Hrecv.
Qed.

End LoopFacts.

(** ** Filter updates compose *)

Section UpdateFacts.
Context `{Runtime}.

Lemma receive_update (d filters : gmap string pyval) (st : Filters) :
  d !! "filters" = Some (PDict filters) →
  receive (Json (PDict d)) st =
    {| car_filter := default (car_filter st) (filters !! "car");
       date_from := default (date_from st) (filters !! "dateFrom");
       date_to := default (date_to st) (filters !! "dateTo") |}.
Proof.
  intros Hd. simpl. by rewrite (on_message_update _ _ _ Hd).
Qed.

(** X9.  Receiving the same message twice is the same as receiving it once,
    whatever the message is. *)
Theorem receive_idempotent (r : received) (st : Filters) :
  receive r (receive r st) = receive r st.
Proof.
  destruct r as [|data|e]; [done| |done].
  destruct (well_formed_update data) eqn:Hwf.
  - destruct data as [| | | | | |d]; try discriminate. simpl in Hwf.
    destruct (d !! "filters") as [[| | | | | |filters]|] eqn:Hd; try discriminate.
    rewrite !(receive_update _ _ _ Hd). simpl.
    by destruct (filters !! "car"), (filters !! "dateFrom"), (filters !! "dateTo").
  - simpl. by rewrite !on_message_malformed.
Qed.

(** X10.  Two updates in a row act as one update in which, key by key, the
    second wins: the members of the second, and those of the first that the
    second does not mention. *)
Theorem receive_two_updates (d1 d2 f1 f2 : gmap string pyval) (st : Filters) :
  d1 !! "filters" = Some (PDict f1) →
  d2 !! "filters" = Some (PDict f2) →
  receive (Json (PDict d2)) (receive (Json (PDict d1)) st)
  = receive (Json (PDict {[ "filters" := PDict (f2 ∪ f1) ]})) st.
Proof.
  intros H1 H2.
  rewrite (receive_update _ _ _ H2), (receive_update _ _ _ H1).
  rewrite (receive_update _ (f2 ∪ f1)) by apply lookup_singleton_eq.
  simpl. f_equal; rewrite lookup_union;
    match goal with
    | |- context [f2 !! ?k] => destruct (f2 !! k), (f1 !! k)
    end; reflexivity.
Qed.

(** X25.  An update is read through three members only: two messages whose
    [filters] objects agree on [car], [dateFrom] and [dateTo] act the same,
    whatever else they and their [filters] hold. *)
Theorem update_reads_three_members (d1 d2 f1 f2 : gmap string pyval) (st : Filters) :
  d1 !! "filters" = Some (PDict f1) →
  d2 !! "filters" = Some (PDict f2) →
  f1 !! "car" = f2 !! "car" →
  f1 !! "dateFrom" = f2 !! "dateFrom" →
  f1 !! "dateTo" = f2 !! "dateTo" →
  receive (Json (PDict d1)) st = receive (Json (PDict d2)) st.
Proof.
  intros H1 H2 Hcar Hfrom Hto.
  rewrite (receive_update _ _ _ H1), (receive_update _ _ _ H2).
  by rewrite Hcar, Hfrom, Hto.
Qed.

End UpdateFacts.

(** ** What the snapshot path makes of its filter values *)

Section FilterValueFacts.
Context `{Runtime}.
Import Sql SqlFacts PyFacts.

Lemma where_clause_evaluates (cs : list cond) (keep : Row → bool) :
  where_clause cs = Ok keep → Forall (λ c, ∃ p, eval_cond c = Ok p) cs.
Proof.
  unfold where_clause. intros (ps & Hps & _)%bind_Ok.
  apply traverse_Ok in Hps. induction Hps; constructor; eauto.
Qed.

(** A snapshot with a feature in it had every clause of its query
    accepted. *)
Lemma snapshot_clauses (d : database) (current_time : Z) (cf df dt : pyval)
    (f : Feature) :
  In f (get_truck_locations d current_time cf df dt) →
  ∃ query, locations_query cf df dt = Ok query
           ∧ Forall (λ c, ∃ p, eval_cond c = Ok p) query.
Proof.
  intros (table & query & keep & _ & _ & Hq & Hk & _)%get_truck_locations_In.
  exists query. split; [exact Hq|]. by eapply where_clause_evaluates.
Qed.

Lemma locations_query_dates (cf df dt : pyval) (query : list cond) :
  locations_query cf df dt = Ok query →
  (Py.truthy df = true → In (DateGe df) query)
  ∧ (Py.truthy dt = true → In (DateLe dt) query).
Proof.
  unfold locations_query, date_clauses.
  intros (by_car & _ & [= <-])%bind_Ok.
  split; intros ->; rewrite !in_app_iff; simpl; tauto.
Qed.

Lemma no_feature_nil (l : list Feature) : (∀ f, ¬ In f l) → l = [].
Proof.
  destruct l as [|f l]; [done|]. intros Hno. destruct (Hno f). by left.
Qed.

Lemma locations_query_falsy (cf df dt : pyval) :
  Py.truthy cf = false → locations_query cf df dt = locations_query PNone df dt.
Proof. unfold locations_query. by intros ->. Qed.

(** A truthy date bound that is neither a string nor a list is sent typed
    or not at all, and the comparison with a date fails; so does a string
    that is no date. *)
Lemma date_param_rejected (v : pyval) :
  Py.truthy v = true →
  ((∀ s, v ≠ PStr s) ∧ (∀ l, v ≠ PList l)) ∨ (∃ s, v = PStr s ∧ date_in s = None) →
  ∃ e, date_param v = Raise e.
Proof.
  intros Htruthy [[Hs Hl]|(s & -> & Hd)].
  - destruct v as [|b|z|x|s|l|m]; try discriminate; try (by eexists).
    + by destruct (Hs s).
    + by destruct (Hl l).
  - simpl. unfold date_is. rewrite Hd. by eexists.
Qed.

(** X11.  A car filter that is neither a string nor a non-empty list (a
    client update can put any JSON value there) either counts as no filter,
    when it is falsy ([null], [false], [0], [[]], [{}]), or, when it is
    truthy (a number, [true], an object), makes the snapshot empty. *)
Theorem car_filter_not_string (v : pyval) (d : database) (current_time : Z)
    (df dt : pyval) :
  (∀ s, v ≠ PStr s) →
  (∀ x l, v ≠ PList (x :: l)) →
  get_truck_locations d current_time v df dt =
    if Py.truthy v then [] else get_truck_locations d current_time PNone df dt.
Proof.
  intros Hv Hl. destruct (Py.truthy v) eqn:Htruthy.
  2:{ unfold get_truck_locations, locations_try.
      by rewrite (locations_query_falsy _ _ _ Htruthy). }
  apply no_feature_nil. intros f (query & Hq & Hall)%snapshot_clauses.
  unfold locations_query in Hq. rewrite Htruthy in Hq.
  apply bind_Ok in Hq as (by_car & Hcar & [= <-]).
  apply Forall_app in Hall as [Hall _].
  destruct v as [|b|z|x|s|[|y l]|m]; try discriminate; try (by destruct (Hv s));
    simpl in Hcar.
  - by destruct (Hl y l).
  - destruct (bool_decide (is_Some (m !! ","))); [discriminate|].
    injection Hcar as <-. apply Forall_inv in Hall as [p Hp]. discriminate.
Qed.

Lemma snapshot_rejected_date (d : database) (current_time : Z) (cf df dt : pyval) :
  (Py.truthy df = true
   ∧ (((∀ s, df ≠ PStr s) ∧ (∀ l, df ≠ PList l))
      ∨ ∃ s, df = PStr s ∧ date_in s = None))
  ∨ (Py.truthy dt = true
     ∧ (((∀ s, dt ≠ PStr s) ∧ (∀ l, dt ≠ PList l))
        ∨ ∃ s, dt = PStr s ∧ date_in s = None)) →
  get_truck_locations d current_time cf df dt = [].
Proof.
  intros Hbad. apply no_feature_nil. intros f (query & Hq & Hall)%snapshot_clauses.
  apply locations_query_dates in Hq as [Hfrom Hto].
  rewrite List.Forall_forall in Hall.
  destruct Hbad as [[Ht Hbad]|[Ht Hbad]].
  - destruct (Hall _ (Hfrom Ht)) as [p Hp]. simpl in Hp.
    destruct (date_param_rejected _ Ht Hbad) as [e He]. by rewrite He in Hp.
  - destruct (Hall _ (Hto Ht)) as [p Hp]. simpl in Hp.
    destruct (date_param_rejected _ Ht Hbad) as [e He]. by rewrite He in Hp.
Qed.

(** X12.  A date bound that is truthy and neither a string nor a list (a
    client update can put any JSON value there), or a string the server
    does not read as a date, empties the snapshot, whatever the other
    filters are. *)
Theorem date_filter_rejected (d : database) (current_time : Z) (cf df dt : pyval) :
  (Py.truthy df = true
   ∧ (((∀ s, df ≠ PStr s) ∧ (∀ l, df ≠ PList l))
      ∨ ∃ s, df = PStr s ∧ date_in s = None))
  ∨ (Py.truthy dt = true
     ∧ (((∀ s, dt ≠ PStr s) ∧ (∀ l, dt ≠ PList l))
        ∨ ∃ s, dt = PStr s ∧ date_in s = None)) →
  get_truck_locations d current_time cf df dt = [].
Proof. apply snapshot_rejected_date. Qed.

(** X13.  The two request handlers differ on failure.  With the repository
    failing, or with a date parameter the server rejects, [GET /api/trucks]
    answers an empty FeatureCollection, while [GET /api/trucks/{car_id}]
    answers the same requests with status 500. *)
Theorem get_trucks_hides_failure (d : database) (current_time : Z)
    (car from to : option string) (car_id : string) :
  down d = true
  ∨ (∃ s, from = Some s ∧ s ≠ "" ∧ date_in s = None)
  ∨ (∃ s, to = Some s ∧ s ≠ "" ∧ date_in s = None) →
  get_trucks d current_time car from to =
    {| collection_type := "FeatureCollection"; collection_features := [] |}
  ∧ ∃ e, get_truck_history d car_id from to =
           Raise (HTTPException 500 ("Database error: " +:+ str_exn e)).
Proof.
  intros Hbad. split.
  - unfold get_trucks. f_equal.
    destruct Hbad as [Hdown|[(s & -> & Hs & Hd)|(s & -> & Hs & Hd)]].
    + by apply get_truck_locations_down.
    + apply snapshot_rejected_date. left. split.
      * by apply nonempty_true.
      * right. by exists s.
    + apply snapshot_rejected_date. right. split.
      * by apply nonempty_true.
      * right. by exists s.
  - destruct Hbad as [Hdown|Hbad]; [by apply get_truck_history_down|].
    unfold get_truck_history, history_records.
    destruct (get_db_connection d) as [conn|e]; simpl; [|by eexists].
    destruct (where_clause (history_query car_id from to)) as [keep|e] eqn:Hk;
      simpl; [|by eexists].
    exfalso. apply where_clause_evaluates in Hk.
    rewrite List.Forall_forall in Hk. unfold history_query, date_clauses in Hk.
    destruct Hbad as [(s & -> & Hs & Hd)|(s & -> & Hs & Hd)];
      apply nonempty_true in Hs; rewrite <- truthy_PStr in Hs;
      cbn [of_query] in Hk; rewrite Hs in Hk.
    + destruct (Hk (DateGe (PStr s))) as [p Hp].
      { apply in_app_iff. right. apply in_app_iff. left. by left. }
      simpl in Hp. unfold date_is in Hp. by rewrite Hd in Hp.
    + destruct (Hk (DateLe (PStr s))) as [p Hp].
      { apply in_app_iff. right. apply in_app_iff. right. by left. }
      simpl in Hp. unfold date_is in Hp. by rewrite Hd in Hp.
Qed.

End FilterValueFacts.

(** ** The vehicles a car filter lets through *)

Module TokenFacts.
Import Py PyFacts.

Lemma lstrip_idempotent (s : string) : lstrip (lstrip s) = lstrip s.
Proof.
  induction s as [|c s IH]; [done|]. simpl.
  destruct (isspace c) eqn:Hc; [exact IH|]. simpl. by rewrite Hc.
Qed.

Lemma rstrip_idempotent (s : string) : rstrip (rstrip s) = rstrip s.
Proof.
  induction s as [|c s IH]; [done|]. simpl.
  destruct (rstrip s) as [|c' r] eqn:Hr.
  - destruct (isspace c) eqn:Hc; [done|]. simpl. by rewrite Hc.
  - change (rstrip (String c (String c' r)))
      with (match rstrip (String c' r) with
            | EmptyString => if isspace c then EmptyString else String c EmptyString
            | r' => String c r'
            end).
    by rewrite IH.
Qed.

(** Stripping the two ends in either order gives the same string. *)
Lemma lstrip_rstrip (s : string) : lstrip (rstrip s) = rstrip (lstrip s).
Proof.
  induction s as [|c s IH]; [done|]. simpl.
  destruct (isspace c) eqn:Hc.
  - rewrite <- IH. destruct (rstrip s) as [|c' r]; [done|]. simpl. by rewrite Hc.
  - simpl. destruct (rstrip s); simpl; by rewrite Hc.
Qed.

Lemma strip_idempotent (s : string) : strip (strip s) = strip s.
Proof.
  unfold strip.
  by rewrite (lstrip_rstrip (lstrip s)), lstrip_idempotent, rstrip_idempotent.
Qed.

Lemma split_pieces_no_comma (s : string) :
  Forall (λ t, str_contains "," t = false) (split "," s).
Proof.
  induction s as [|c s IH]; simpl; [by repeat constructor|].
  destruct (Ascii.eqb c ",") eqn:Hc; [by constructor|].
  destruct (split "," s) as [|t ts].
  { constructor; [|constructor]. by rewrite str_contains_comma, Hc. }
  apply Forall_cons in IH as [Ht Hts]. constructor; [|exact Hts].
  by rewrite str_contains_comma, Hc, Ht.
Qed.

(** What the comprehension of [get_truck_locations] yields are ids: none
    empty, none with a comma, none with whitespace at an end. *)
Lemma tokens_are_tokens (s : string) :
  Forall token (List.filter nonempty (map strip (split "," s))).
Proof.
  apply List.Forall_forall. intros t [Ht Hne]%filter_In.
  apply in_map_iff in Ht as (piece & <- & Hpiece).
  split_and!.
  - by apply nonempty_true.
  - apply strip_no_comma.
    exact (proj1 (List.Forall_forall _ _) (split_pieces_no_comma s) _ Hpiece).
  - apply strip_idempotent.
Qed.

Lemma filter_cons_true {A : Type} (p : A → bool) (x : A) (l : list A) :
  p x = true → List.filter p (x :: l) = x :: List.filter p l.
Proof. simpl. by intros ->. Qed.

Lemma strip_token (t : string) : token t → strip t = t ∧ nonempty t = true.
Proof.
  intros (Hne & _ & Hstrip). split; [exact Hstrip|]. by apply nonempty_true.
Qed.

(** Parsing a [", "]-joined list of ids, each piece but the first with the
    space in front of it. *)
Lemma tokens_join (lead : string) (ids : list string) :
  lead = "" ∨ lead = " " →
  ids ≠ [] → Forall token ids →
  List.filter nonempty (map strip (split "," (lead +:+ join_comma ids))) = ids.
Proof.
  intros Hlead Hne Hids. revert lead Hlead.
  induction Hids as [|t ids Ht Hids IH]; intros lead Hlead; [done|].
  destruct (strip_token t Ht) as [Hstrip Hnonempty].
  destruct Ht as (_ & Hcomma & _).
  assert (Hlt : str_contains "," (lead +:+ t) = false).
  { destruct Hlead as [->| ->]; [exact Hcomma|].
    change (" " +:+ t) with (String " " t). by rewrite str_contains_comma, Hcomma. }
  assert (Hst : strip (lead +:+ t) = t).
  { destruct Hlead as [->| ->]; [exact Hstrip|].
    change (" " +:+ t) with (String " " t). by rewrite strip_space. }
  destruct ids as [|t' ids].
  - simpl join_comma. rewrite (split_no_comma _ Hlt). simpl.
    by rewrite Hst, Hnonempty.
  - change (join_comma (t :: t' :: ids))
      with (t +:+ String "," (" " +:+ join_comma (t' :: ids))).
    replace (lead +:+ (t +:+ String "," (" " +:+ join_comma (t' :: ids))))
      with ((lead +:+ t) +:+ String "," (" " +:+ join_comma (t' :: ids))).
    2:{ destruct Hlead as [->| ->]; reflexivity. }
    rewrite (split_first _ _ Hlt), map_cons, Hst, (filter_cons_true _ _ _ Hnonempty).
    f_equal. apply IH; [done|by right].
Qed.

End TokenFacts.

Section CarFilterIds.
Context `{Runtime}.
Import Sql SqlFacts PyFacts TokenFacts.

Lemma NoDup_all_equal {A : Type} (a : A) (l : list A) :
  NoDup l → (∀ x, In x l → x = a) → (length l ≤ 1)%nat.
Proof.
  intros Hnd Hall. destruct l as [|x [|y l]]; simpl; [lia..|].
  apply NoDup_cons in Hnd as [Hx _]. exfalso. apply Hx.
  rewrite (Hall x), (Hall y); [by left|simpl; tauto..].
Qed.

(** X14.  A car filter without a comma is taken as it stands, not trimmed:
    the snapshot has at most one feature, and its id is the filter string
    character for character. *)
Theorem single_id_exact (s : string) (d : database) (current_time : Z)
    (df dt : pyval) :
  s ≠ "" → Py.str_contains "," s = false →
  (∀ f, In f (get_truck_locations d current_time (PStr s) df dt) →
        p_id (properties f) = s)
  ∧ (length (get_truck_locations d current_time (PStr s) df dt) ≤ 1)%nat.
Proof.
  intros Hne Hcomma.
  assert (Hid : ∀ f, In f (get_truck_locations d current_time (PStr s) df dt) →
                     p_id (properties f) = s).
  { intros f (table & query & keep & row & _ & Hq & Hk & Hrow & Hf)%get_truck_locations_In.
    rewrite (locations_query_single _ _ _ Hne Hcomma) in Hq. injection Hq as <-.
    apply where_clause_cons_Ok in Hk as (p & k & [_ ->]%eval_cond_CarEq_Ok & _ & ->).
    apply latest_of_Some in Hrow as (_ & [Hcar _]%andb_true_iff & _).
    rewrite (feature_of_row_id _ _ _ Hf). by apply same_car_true. }
  split; [exact Hid|].
  rewrite <- (length_map (λ f, p_id (properties f))).
  apply (NoDup_all_equal s); [apply get_truck_locations_NoDup|].
  intros x (f & <- & Hf)%in_map_iff. by apply Hid.
Qed.

(** X15.  A car filter with a comma is cut into ids that are not empty,
    hold no comma and have no whitespace at either end; when there is at
    least one, every feature of the snapshot has one of them as its id. *)
Theorem comma_filter_ids (s : string) (d : database) (current_time : Z)
    (df dt : pyval) :
  Py.str_contains "," s = true →
  ∃ ids,
    vehicle_ids (PStr s) = Ok ids
    ∧ Forall token ids
    ∧ (ids ≠ [] →
       ∀ f, In f (get_truck_locations d current_time (PStr s) df dt) →
            In (p_id (properties f)) ids).
Proof.
  intros Hcomma. eexists. split; [reflexivity|].
  split; [apply tokens_are_tokens|].
  intros Hids f (table & query & keep & row & _ & Hq & Hk & Hrow & Hf)%get_truck_locations_In.
  rewrite (locations_query_tokens _ _ _ Hcomma) in Hq.
  destruct (List.filter Py.nonempty (map Py.strip (Py.split "," s)))
    as [|t ts] eqn:Htokens; [done|].
  injection Hq as <-.
  apply where_clause_cons_Ok in Hk as (p & k & [_ ->]%eval_cond_CarIn_Ok & _ & ->).
  apply latest_of_Some in Hrow as (_ & [Hcar _]%andb_true_iff & _).
  apply (proj1 (existsb_exists (String.eqb (car row)) (t :: ts))) in Hcar
    as (t' & Ht' & Heq%String.eqb_eq).
  rewrite (feature_of_row_id _ _ _ Hf), Heq. exact Ht'.
Qed.

Lemma existsb_same_elements {A : Type} (p : A → bool) (l1 l2 : list A) :
  (∀ x, In x l1 ↔ In x l2) → existsb p l1 = existsb p l2.
Proof.
  intros Hsame. apply eq_true_iff_eq. rewrite !existsb_exists.
  split; intros (x & Hx & Hp); exists x; split; try done; by apply Hsame.
Qed.

(** X16.  Only the set of ids in a comma-separated car filter counts: two
    filters that list the same ids, in any order and with any repetition
    or spacing, give the same snapshot. *)
Theorem comma_filter_set (s1 s2 : string) (d : database) (current_time : Z)
    (df dt : pyval) :
  Py.str_contains "," s1 = true → Py.str_contains "," s2 = true →
  (∀ t, In t (List.filter Py.nonempty (map Py.strip (Py.split "," s1)))
        ↔ In t (List.filter Py.nonempty (map Py.strip (Py.split "," s2)))) →
  get_truck_locations d current_time (PStr s1) df dt
  = get_truck_locations d current_time (PStr s2) df dt.
Proof.
  intros H1 H2 Hsame.
  pose proof (locations_query_tokens _ df dt H1) as Hq1.
  pose proof (locations_query_tokens _ df dt H2) as Hq2.
  destruct (List.filter Py.nonempty (map Py.strip (Py.split "," s1))) as [|a1 ids1];
    destruct (List.filter Py.nonempty (map Py.strip (Py.split "," s2))) as [|a2 ids2].
  - unfold get_truck_locations, locations_try. by rewrite Hq1, Hq2.
  - destruct (proj2 (Hsame a2)). by left.
  - destruct (proj1 (Hsame a1)). by left.
  - simpl in Hq1, Hq2. destruct d as [e|e|table];
      [by rewrite !get_truck_locations_down..|].
    pose proof (existsb_same_elements has_nul _ _ Hsame) as Hnul.
    destruct (existsb has_nul (a1 :: ids1)) eqn:Hnul1; symmetry in Hnul.
    { rewrite (get_truck_locations_rejected _ _ _ _ _ _ DataError Hq1),
        (get_truck_locations_rejected _ _ _ _ _ _ DataError Hq2);
        [done|by apply where_clause_head_Raise, eval_cond_CarIn_Raise..]. }
    pose proof (eval_cond_CarIn _ Hnul1) as He1.
    pose proof (eval_cond_CarIn _ Hnul) as He2.
    destruct (where_clause (date_clauses df dt)) as [kd|e] eqn:Hkd.
    2:{ rewrite (get_truck_locations_rejected _ _ _ _ _ _ e Hq1),
          (get_truck_locations_rejected _ _ _ _ _ _ e Hq2);
          [done|eapply where_clause_cons_Raise; eassumption..]. }
    rewrite (get_truck_locations_connected _ _ _ _ _ _ _ Hq1
               (where_clause_car (CarIn (a1 :: ids1)) _ _ _ He1 Hkd)).
    rewrite (get_truck_locations_connected _ _ _ _ _ _ _ Hq2
               (where_clause_car (CarIn (a2 :: ids2)) _ _ _ He2 Hkd)).
    rewrite (filter_ext (λ r, existsb (String.eqb (car r)) (a1 :: ids1) && kd r)
               (λ r, existsb (String.eqb (car r)) (a2 :: ids2) && kd r)); [done|].
    intros r. f_equal. by apply existsb_same_elements.
Qed.

(** X17.  A client that joins ids with [", "] gets exactly those ids looked
    up: two or more ids, joined, are cut back into the same list. *)
Theorem join_then_parse (ids : list string) :
  (2 ≤ length ids)%nat → Forall token ids →
  vehicle_ids (PStr (join_comma ids)) = Ok ids
  ∧ Py.str_contains "," (join_comma ids) = true.
Proof.
  intros Hlen Hids. split.
  - unfold vehicle_ids. f_equal.
    apply (tokens_join "" ids); [by left| |exact Hids].
    intros ->. simpl in Hlen. lia.
  - destruct ids as [|t [|t' ids]]; simpl in Hlen; [lia..|].
    change (join_comma (t :: t' :: ids))
      with (t +:+ String "," (" " +:+ join_comma (t' :: ids))).
    by rewrite str_contains_comma_app, str_contains_comma, orb_true_r.
Qed.

End CarFilterIds.

(** ** Date bounds, history, vehicle listing *)

Section QueryFacts.
Context `{Runtime}.
Import Sql SqlFacts PyFacts.

Lemma bounded_query (sf st : string) (lo hi : Z) :
  sf ≠ "" → st ≠ "" → date_in sf = Some lo → date_in st = Some hi →
  locations_query PNone (PStr sf) (PStr st)
    = Ok [DateGe (PStr sf); DateLe (PStr st)]
  ∧ where_clause [DateGe (PStr sf); DateLe (PStr st)]
    = Ok (λ r, (lo <=? date r) && ((date r <=? hi) && true)).
Proof.
  intros Hsf Hst Hlo Hhi. apply nonempty_true in Hsf, Hst. split.
  - unfold locations_query, date_clauses.
    rewrite !truthy_PStr, Hsf, Hst. reflexivity.
  - unfold where_clause. simpl. unfold date_is. rewrite Hlo, Hhi. reflexivity.
Qed.

(** X18.  Both date bounds are inclusive, and with no car filter the
    snapshot shows exactly the vehicles that have a row dated within them
    (rows on the first and on the last day count), provided those rows can
    be shown: their dates fetched and their timestamps rendered. *)
Theorem date_bounds_inclusive (table : list Row) (current_time : Z)
    (sf st : string) (lo hi : Z) :
  sf ≠ "" → st ≠ "" → date_in sf = Some lo → date_in st = Some hi →
  (∀ r, In r table → lo ≤ date r ≤ hi → renders r) →
  ∀ v,
    In v (map (λ f, p_id (properties f))
            (get_truck_locations (Connected table) current_time
               PNone (PStr sf) (PStr st)))
    ↔ ∃ r, In r table ∧ car r = v ∧ lo ≤ date r ≤ hi.
Proof.
  intros Hsf Hst Hlo Hhi Hfmt v.
  destruct (bounded_query sf st lo hi Hsf Hst Hlo Hhi) as [Hq Hk].
  assert (Hkeep : ∀ r, (lo <=? date r) && ((date r <=? hi) && true) = true
                       ↔ lo ≤ date r ≤ hi).
  { intros r. rewrite andb_true_r, andb_true_iff, !Z.leb_le. tauto. }
  assert (Hfmt' : ∀ r, In r table →
                       (lo <=? date r) && ((date r <=? hi) && true) = true →
                       renders r).
  { intros r Hr Hb. apply (Hfmt r Hr). by apply Hkeep. }
  rewrite in_map_iff. split.
  - intros (f & <- & Hf).
    apply (get_truck_locations_iff _ _ _ _ _ _ _ f Hq Hk Hfmt') in Hf
      as (row & Hrow & Hf).
    apply latest_of_Some in Hrow as (Hin & Hb & _).
    exists row. split; [exact Hin|]. split; [|by apply Hkeep].
    symmetry. by apply feature_of_row_id in Hf.
  - intros (r & Hr & <- & Hb).
    destruct (get_truck_locations_covers table current_time _ _ _ _ _ r
                Hq Hk Hfmt' Hr) as (f & Hf & Hid); [by apply Hkeep|].
    by exists f.
Qed.

Lemma by_latest_total (a b : Row) : by_latest a b = false → by_latest b a = true.
Proof. unfold by_latest. lia. Qed.

Lemma by_latest_trans (a b c : Row) :
  by_latest a b = true → by_latest b c = true → by_latest a c = true.
Proof. unfold by_latest. lia. Qed.

Lemma StronglySorted_impl {A : Type} (R S : A → A → Prop) (l : list A) :
  (∀ a b, R a b → S a b) → StronglySorted R l → StronglySorted S l.
Proof.
  intros HRS. induction 1 as [|a l _ IH Ha]; constructor; [exact IH|].
  eapply List.Forall_impl; [|exact Ha]. intros b. apply HRS.
Qed.

Lemma get_truck_history_Ok (d : database) (car_id : string)
    (from to : option string) (rows : list Row) :
  get_truck_history d car_id from to = Ok rows →
  ∃ table keep,
    d = Connected table
    ∧ where_clause (history_query car_id from to) = Ok keep
    ∧ rows = order_by by_latest (List.filter keep table)
    ∧ ∀ r, In r rows → loads r = true.
Proof.
  unfold get_truck_history, history_records.
  destruct d as [e|e|table]; simpl; [discriminate| |].
  - by destruct (where_clause _).
  - destruct (where_clause _) as [keep|e]; simpl; [|discriminate].
    destruct (fetchall _) as [rows'|e] eqn:Hfetch; [|discriminate].
    intros [= <-]. apply fetchall_Ok in Hfetch as [-> Hloads].
    by exists table, keep.
Qed.

(** X19.  The history that is answered holds rows of the table only, all
    of the vehicle asked for, none dated outside a bound that was given,
    and the latest position comes first. *)
Theorem history_rows_sorted (d : database) (car_id : string)
    (from to : option string) (rows : list Row) :
  get_truck_history d car_id from to = Ok rows →
  StronglySorted (λ a b, timestamp b ≤ timestamp a) rows
  ∧ Forall (λ r, car r = car_id) rows
  ∧ (∃ table, d = Connected table ∧ Forall (λ r, In r table) rows)
  ∧ (∀ s lo, from = Some s → s ≠ "" → date_in s = Some lo →
             Forall (λ r, lo ≤ date r) rows)
  ∧ (∀ s hi, to = Some s → s ≠ "" → date_in s = Some hi →
             Forall (λ r, date r ≤ hi) rows).
Proof.
  intros (table & keep & -> & Hk & -> & _)%get_truck_history_Ok.
  assert (Hin : ∀ r, In r (order_by by_latest (List.filter keep table)) →
                     In r table ∧ keep r = true).
  { intros r Hr. apply order_by_In in Hr. by apply filter_In in Hr. }
  unfold history_query in Hk.
  apply where_clause_cons_Ok in Hk as (p & k & [_ ->]%eval_cond_CarEq_Ok & Hdates & ->).
  split_and!.
  - pose proof (order_by_sorted _ by_latest_total by_latest_trans
                  (List.filter (λ r, same_car car_id r && k r) table)) as Hs.
    eapply StronglySorted_impl; [|exact Hs].
    intros a b Hab. unfold by_latest in Hab. lia.
  - apply List.Forall_forall. intros r [_ [Hcar _]%andb_true_iff]%Hin.
    by apply same_car_true.
  - exists table. split; [done|]. apply List.Forall_forall. by intros r [? _]%Hin.
  - intros s lo -> Hs Hlo. apply List.Forall_forall.
    intros r [_ [_ Hkr]%andb_true_iff]%Hin.
    apply nonempty_true in Hs. unfold date_clauses in Hdates.
    cbn [of_query] in Hdates. rewrite truthy_PStr, Hs in Hdates.
    apply where_clause_cons_Ok in Hdates as (p' & k' & Hp' & _ & ->).
    simpl in Hp'. unfold date_is in Hp'. rewrite Hlo in Hp'. injection Hp' as <-.
    apply andb_true_iff in Hkr as [Hge _]. lia.
  - intros s hi -> Hs Hhi. apply List.Forall_forall.
    intros r [_ [_ Hkr]%andb_true_iff]%Hin.
    apply nonempty_true in Hs. unfold date_clauses in Hdates.
    cbn [of_query] in Hdates. rewrite (truthy_PStr s), Hs in Hdates.
    apply where_clause_evaluates in Hdates as Hall.
    assert (Hle : ∀ ps, traverse eval_cond
                          ((if Py.truthy (of_query from)
                            then [DateGe (of_query from)] else [])
                           ++ [DateLe (PStr s)]) = Ok ps →
                        forallb (λ q : Row → bool, q r) ps = true →
                        date r ≤ hi).
    { intros ps Hps Hps_r. apply traverse_Ok in Hps.
      apply Forall2_app_inv_l in Hps as (ps1 & ps2 & _ & Hps2 & ->).
      apply Forall2_cons_inv_l in Hps2 as (q & ps2' & Hq & _ & ->).
      simpl in Hq. unfold date_is in Hq. rewrite Hhi in Hq. injection Hq as <-.
      rewrite forallb_app in Hps_r. apply andb_true_iff in Hps_r as [_ Hps_r].
      simpl in Hps_r. apply andb_true_iff in Hps_r as [Hle _]. lia. }
    unfold where_clause in Hdates.
    apply bind_Ok in Hdates as (ps & Hps & [= <-]). by apply (Hle ps).
Qed.

(** X20.  Asked without date bounds, for an id without a NUL byte and a
    vehicle whose rows have dates that can be fetched, the history of the
    vehicle is all of its rows: every row of the table with that car, as
    often as the table has it, and no other. *)
Theorem history_complete (table : list Row) (car_id : string)
    (from to : option string) :
  from = None ∨ from = Some "" →
  to = None ∨ to = Some "" →
  has_nul car_id = false →
  (∀ r, In r table → car r = car_id → loads r = true) →
  ∃ rows,
    get_truck_history (Connected table) car_id from to = Ok rows
    ∧ rows ≡ₚ List.filter (same_car car_id) table.
Proof.
  intros Hfrom Hto Hnul Hloads.
  assert (Hq : history_query car_id from to = [CarEq (PStr car_id)]).
  { by destruct Hfrom as [-> | ->], Hto as [-> | ->]. }
  assert (Hk : where_clause [CarEq (PStr car_id)]
               = Ok (λ r, same_car car_id r && true)).
  { apply where_clause_car; [by apply eval_cond_CarEq|reflexivity]. }
  unfold get_truck_history, history_records. rewrite Hq, Hk. simpl.
  rewrite fetchall_loads.
  2:{ intros r [Hr [Hcar%same_car_true _]%andb_true_iff]%order_by_In%filter_In.
      by apply Hloads. }
  eexists. split; [reflexivity|].
  rewrite order_by_perm.
  rewrite (filter_ext (λ r, same_car car_id r && true) (same_car car_id)); [done|].
  intros r. apply andb_true_r.
Qed.

(** X21.  The vehicle listing names every car of the table once, and no
    other; when the repository fails it answers with status 500. *)
Theorem get_all_vehicles_lists_cars (d : database) :
  (∀ table, d = Connected table →
     ∃ vehicles,
       get_all_vehicles d = Ok vehicles
       ∧ NoDup vehicles
       ∧ ∀ v, In v vehicles ↔ ∃ r, In r table ∧ car r = v)
  ∧ (down d = true →
     ∃ e, get_all_vehicles d =
            Raise (HTTPException 500 ("Database error: " +:+ str_exn e))).
Proof.
  split.
  - intros table ->. exists (distinct_cars table). split; [reflexivity|].
    unfold distinct_cars. split; [apply NoDup_remove_dups|].
    intros v. rewrite <- list_elem_of_In, elem_of_remove_dups, list_elem_of_In.
    rewrite in_map_iff. split; intros (r & ? & ?); by exists r.
  - intros Hdown. destruct d as [e|e|table]; [..|discriminate]; by eexists.
Qed.

(** X22.  The listing and the unfiltered snapshot agree: when every row can
    be shown (its date fetched, its timestamp rendered), the ids of the
    snapshot without filters are the vehicles of the listing, each once. *)
Theorem vehicles_match_snapshot (table : list Row) (current_time : Z) :
  (∀ r, In r table → renders r) →
  ∃ vehicles,
    get_all_vehicles (Connected table) = Ok vehicles
    ∧ map (λ f, p_id (properties f))
        (get_truck_locations (Connected table) current_time PNone PNone PNone)
      ≡ₚ vehicles.
Proof.
  intros Hfmt. exists (distinct_cars table). split; [reflexivity|].
  apply NoDup_Permutation;
    [apply get_truck_locations_NoDup|apply NoDup_remove_dups|].
  intros v. unfold distinct_cars.
  rewrite elem_of_remove_dups, !list_elem_of_In, !in_map_iff.
  assert (Hk : where_clause [] = Ok (λ _, true)) by reflexivity.
  split.
  - intros (f & <- & Hf).
    apply (get_truck_locations_iff table current_time PNone PNone PNone
             [] (λ _, true) f eq_refl Hk) in Hf as (row & Hrow & Hf); [|by auto].
    apply latest_of_Some in Hrow as (Hin & _).
    exists row. split; [|exact Hin]. symmetry. by apply feature_of_row_id in Hf.
  - intros (r & <- & Hr).
    destruct (get_truck_locations_covers table current_time PNone PNone PNone
                [] (λ _, true) r eq_refl Hk) as (f & Hf & Hid); auto.
    by exists f.
Qed.

(** X23.  Every feature of a snapshot renders one row of the table: its
    id, timestamp and date are the row's, its coordinates are the row's
    longitude and then its latitude, and its status is the classifier's
    answer for the timestamp it shows, so a client can check one against
    the other. *)
Theorem feature_renders_row (d : database) (current_time : Z)
    (cf df dt : pyval) (f : Feature) :
  In f (get_truck_locations d current_time cf df dt) →
  feature_type f = "Feature"
  ∧ geometry_type (geometry f) = "Point"
  ∧ p_status (properties f)
    = determine_status current_time (p_timestamp (properties f))
  ∧ strftime_local (p_timestamp (properties f))
    = Some (p_last_update (properties f))
  ∧ ∃ table row,
      d = Connected table ∧ In row table
      ∧ p_id (properties f) = car row
      ∧ p_timestamp (properties f) = timestamp row
      ∧ p_date (properties f) = str_date (date row)
      ∧ coordinates (geometry f) = [longitude row; latitude row].
Proof.
  intros (table & query & keep & row & -> & _ & _ & Hrow & Hf)%get_truck_locations_In.
  apply latest_of_Some in Hrow as (Hin & _).
  unfold feature_of_row in Hf.
  destruct (strftime_local (timestamp row)) as [s|] eqn:Hs; [|discriminate].
  simpl in Hf. injection Hf as <-. simpl.
  split_and!; try done. by exists table, row.
Qed.

(** X26.  The snapshot of one vehicle shows the head of its history: under
    no date bound, the feature for a vehicle carries the timestamp of the
    first row of that vehicle's history, and a vehicle with an empty
    history has no feature. *)
Theorem snapshot_is_history_head (table : list Row) (current_time : Z)
    (s : string) (rows : list Row) :
  s ≠ "" → Py.str_contains "," s = false →
  get_truck_history (Connected table) s None None = Ok rows →
  match rows with
  | [] => get_truck_locations (Connected table) current_time (PStr s) PNone PNone = []
  | r :: _ =>
      ∀ f, In f (get_truck_locations (Connected table) current_time
                   (PStr s) PNone PNone) →
           p_id (properties f) = s
           ∧ p_timestamp (properties f) = timestamp r
  end.
Proof.
  intros Hne Hcomma (table' & keep & [= <-] & Hk & Hrows & _)%get_truck_history_Ok.
  pose proof (locations_query_single s PNone PNone Hne Hcomma) as Hq.
  change (history_query s None None) with ([CarEq (PStr s)]) in Hk.
  change (CarEq (PStr s) :: date_clauses PNone PNone) with ([CarEq (PStr s)]) in Hq.
  destruct rows as [|r rest].
  - rewrite (get_truck_locations_connected _ _ _ _ _ _ _ Hq Hk).
    assert (Hnil : List.filter keep table = []).
    { pose proof (order_by_perm by_latest (List.filter keep table)) as Hperm.
      rewrite <- Hrows in Hperm. by apply Permutation_nil. }
    by rewrite Hnil.
  - intros f (table' & query & keep' & x & [= <-] & Hq' & Hk' & Hx & Hf)%get_truck_locations_In.
    rewrite Hq in Hq'. injection Hq' as <-. rewrite Hk in Hk'. injection Hk' as <-.
    apply latest_of_Some in Hx as (Hxin & Hkx & _ & Hmax).
    assert (Hkeep : ∀ y, keep y = true → car y = s).
    { apply where_clause_cons_Ok in Hk as (p & k & [_ ->]%eval_cond_CarEq_Ok & _ & ->).
      intros y [Hy _]%andb_true_iff. by apply same_car_true. }
    assert (Hr : In r (List.filter keep table)).
    { apply (order_by_In by_latest). rewrite <- Hrows. by left. }
    apply filter_In in Hr as [Hrin Hkr].
    assert (Hxr : timestamp x ≤ timestamp r).
    { destruct (order_by_head _ by_latest_total by_latest_trans
                  (List.filter keep table) r x) as [Hle| ->]; [by rewrite <- Hrows| |..].
      - apply filter_In. by split.
      - unfold by_latest in Hle. lia.
      - lia. }
    assert (Hrx : timestamp r ≤ timestamp x).
    { apply Hmax; [done..|]. by rewrite (Hkeep r Hkr), (Hkeep x Hkx). }
    unfold feature_of_row in Hf.
    destruct (strftime_local (timestamp x)); [|discriminate].
    simpl in Hf. injection Hf as <-. simpl. split; [by apply Hkeep|lia].
Qed.

End QueryFacts.

(** ** Connection parameters *)

Lemma params_from_env_keys (environ : gmap string string) (k v : string) :
  params_from_env environ !! k = Some v → k ∈ valid_keys.
Proof.
  unfold params_from_env. intros Hk%elem_of_list_to_map_2.
  apply list_elem_of_omap in Hk as ([key var] & Hkey & Hv).
  simpl in Hv. destruct (environ !! var); simpl in Hv; [|discriminate].
  injection Hv as <- _.
  unfold env_variables in Hkey. apply list_elem_of_In in Hkey. simpl in Hkey.
  unfold valid_keys.
  destruct Hkey as [[= <- _]|[[= <- _]|[[= <- _]|[[= <- _]|[[= <- _]|[]]]]]];
    set_solver.
Qed.

Lemma params_from_env_lookup (environ : gmap string string) :
  params_from_env environ !! "host" = environ !! "DB_HOST"
  ∧ params_from_env environ !! "port" = environ !! "DB_PORT"
  ∧ params_from_env environ !! "dbname" = environ !! "DB_NAME"
  ∧ params_from_env environ !! "user" = environ !! "DB_USER"
  ∧ params_from_env environ !! "password" = environ !! "DB_PASSWORD".
Proof.
  unfold params_from_env, env_variables. simpl.
  destruct (environ !! "DB_HOST"), (environ !! "DB_PORT"), (environ !! "DB_NAME"),
    (environ !! "DB_USER"), (environ !! "DB_PASSWORD"); simpl;
    split_and!; by simplify_map_eq.
Qed.

(** X24.  A non-empty DATABASE_URL is what the connection is opened with,
    whatever else is set.  Without one (unset or empty), the connection is
    opened with keyword arguments: each of host, port, dbname, user and
    password is passed exactly when its DB_ variable is set, with that
    value, and nothing else is passed. *)
Theorem connection_arguments (environ : gmap string string) :
  (∀ url, environ !! "DATABASE_URL" = Some url → url ≠ "" →
          connect_arguments (db_params environ) = Dsn url)
  ∧ (environ !! "DATABASE_URL" = None ∨ environ !! "DATABASE_URL" = Some "" →
     ∃ params,
       connect_arguments (db_params environ) = Keywords params
       ∧ params !! "host" = environ !! "DB_HOST"
       ∧ params !! "port" = environ !! "DB_PORT"
       ∧ params !! "dbname" = environ !! "DB_NAME"
       ∧ params !! "user" = environ !! "DB_USER"
       ∧ params !! "password" = environ !! "DB_PASSWORD"
       ∧ dom params ⊆ valid_keys).
Proof.
  split.
  - intros url Hurl Hne. unfold db_params. rewrite Hurl.
    apply PyFacts.nonempty_true in Hne. rewrite PyFacts.truthy_PStr, Hne. done.
  - intros Hurl.
    assert (Hp : db_params environ = Keywords (params_from_env environ)).
    { unfold db_params. by destruct Hurl as [-> | ->]. }
    exists (params_from_env environ). rewrite Hp. simpl.
    rewrite map_filter_id by (intros k v Hk; by eapply params_from_env_keys).
    split; [done|].
    destruct (params_from_env_lookup environ) as (? & ? & ? & ? & ?).
    split_and!; try done.
    intros k [v Hk]%elem_of_dom. by eapply params_from_env_keys.
Qed.

(* ===================================================================== *)
(** * The properties on concrete inputs *)
(* ===================================================================== *)

Module Checks.
Import Utc Examples.

(** The end-to-end scenario: T1 seen 100 seconds ago is moving, T2 seen
    5000 seconds ago is stopped, and the older row of T1 is not shown. *)
Example scenario_features :
  map (λ f, (p_id (properties f), p_status (properties f), p_last_update (properties f)))
    (get_truck_locations (Connected fleet) t0 PNone PNone PNone)
  = [("T1", "moving", "2023-11-14 22:11:40");
     ("T2", "stopped", "2023-11-14 20:50:00")].
Proof. by vm_compute. Qed.

Example scenario_counts :
  (λ r, match r with
        | Ok push => (push_counts push !! "moving", push_counts push !! "idle",
                      push_counts push !! "stopped", length (push_features push))
        | Raise _ => (None, None, None, 0%nat)
        end) (snapshot (Connected fleet) t0 no_filter)
  = (Some 1%nat, Some 0%nat, Some 1%nat, 2%nat).
Proof. by vm_compute. Qed.

Example history_latest_first :
  (λ r, match r with Ok rows => map timestamp rows | Raise _ => [] end)
    (get_truck_history (Connected fleet) "T1" None None)
  = [t0 - 100; t0 - 9000].
Proof. by vm_compute. Qed.

Example history_rejected_date :
  ∃ detail, get_truck_history (Connected fleet) "T1" (Some "2023-02-30") None
            = Raise (HTTPException 500 detail).
Proof. by eexists. Qed.

(** An id with a NUL byte cannot be sent: the snapshot is empty and the
    history answers 500. *)
Example nul_byte_id :
  get_truck_locations (Connected fleet) t0 (PStr (String Ascii.zero "T1")) PNone PNone
  = []
  ∧ ∃ detail, get_truck_history (Connected fleet) (String Ascii.zero "T1") None None
              = Raise (HTTPException 500 detail).
Proof. split; [reflexivity|by eexists]. Qed.

(** A car filter that is a list of strings is compared as the text of its
    array literal. *)
Example list_car_filter :
  map (λ f, p_id (properties f))
    (get_truck_locations (Connected [row "{T1}" t0; row "T1" t0]) t0
       (PList [PStr "T1"]) PNone PNone)
  = ["{T1}"].
Proof. by vm_compute. Qed.

(** A row dated 10000-01-01 cannot be fetched: the snapshot is empty, the
    history of its vehicle answers 500, the listing names both vehicles. *)
Example date_after_year_9999 :
  let late := {| car := "T1"; latitude := 31 # 1; longitude := 74 # 1;
                 timestamp := t0; date := days_from_civil 10000 1 1 |} in
  get_truck_locations (Connected [row "T2" t0; late]) t0 PNone PNone PNone = []
  ∧ (∃ detail, get_truck_history (Connected [row "T2" t0; late]) "T1" None None
               = Raise (HTTPException 500 detail))
  ∧ ∃ cars, get_all_vehicles (Connected [row "T2" t0; late]) = Ok cars
            ∧ cars ≡ₚ ["T1"; "T2"].
Proof.
  split_and!; [reflexivity|by eexists|].
  eexists. split; [reflexivity|]. apply perm_swap.
Qed.

Example date_range :
  Sql.date_min = days_from_civil 1 1 1 ∧ Sql.date_max = days_from_civil 9999 12 31.
Proof. by vm_compute. Qed.

(** The first second [fromtimestamp] renders is 0001-01-02 00:00:00, the
    last one 9999-12-31 23:59:59. *)
Example strftime_range :
  strftime (86400 * days_from_civil 1 1 2 - 1) = None
  ∧ strftime (86400 * days_from_civil 1 1 2) = Some "1-01-02 00:00:00"
  ∧ strftime (86400 * days_from_civil 10000 1 1 - 1) = Some "9999-12-31 23:59:59"
  ∧ strftime (86400 * days_from_civil 10000 1 1) = None.
Proof. by vm_compute. Qed.

Example split_examples :
  Py.split "," "A, B" = ["A"; " B"] ∧ Py.split "," "," = [""; ""]
  ∧ Py.split "," "" = [""] ∧ Py.strip "  T 1 " = "T 1".
Proof. by vm_compute. Qed.

Lemma fleet_renders (r : Row) : In r fleet → renders r.
Proof.
  simpl. intros [<-|[<-|[<-|[]]]]; (split; [reflexivity|by eexists]).
Qed.


Lemma snapshot_one_latest_per_vehicle_witness :
  ∃ row, In row fleet
         ∧ feature_of_row t0 row = Ok feature_T2
         ∧ car row = "T2"
         ∧ ∀ r, In r fleet → car r = "T2" → timestamp r ≤ timestamp row.
Proof.
  destruct (snapshot_one_latest_per_vehicle (Connected fleet) t0) as [_ Hlatest].
  destruct (Hlatest (Some "T2") None None feature_T2)
    as (flt & table & row & Hflt & [= <-] & Hin & Hsat & Hf & Hid & Hmax).
  { vm_compute. by left. }
  vm_compute in Hflt. injection Hflt as <-.
  exists row. split_and!; [done|done|by rewrite <- Hid|].
  intros r Hr Hcar. apply Hmax; [done| |by rewrite <- Hid].
  unfold satisfies. simpl. by rewrite Hcar.
Defined.

Lemma repository_failure_witness :
  cycle (quiet (Failing (OperationalError "server closed the connection"))) march
  = (march,
     Some {| push_type := "FeatureCollection"; push_features := [];
             push_counts := {[ "moving" := 0%nat; "idle" := 0%nat;
                               "stopped" := 0%nat ]} |},
     Streaming)
  ∧ ∃ e, get_truck_history (Unreachable (OperationalError "connection refused"))
           "T1" None None
         = Raise (HTTPException 500 ("Database error: " +:+ exn_name e)).
Proof.
  split.
  - destruct (repository_failure
                (quiet (Failing (OperationalError "server closed the connection")))
                march [] "T1" None None) as (Hcycle & _); [reflexivity..|].
    exact Hcycle.
  - destruct (repository_failure
                (quiet (Unreachable (OperationalError "connection refused")))
                march [] "T1" None None) as (_ & _ & Hhistory); [reflexivity..|].
    exact Hhistory.
Defined.

Lemma determine_status_rule_witness :
  determine_status (t0 + 3600) t0 = "idle"
  ∧ determine_status t0 t0 = "moving"
  ∧ determine_status t0 (t0 + 60) = "moving".
Proof.
  split_and!.
  - destruct (determine_status_rule (t0 + 3600) t0) as (_ & _ & _ & Hhour & _).
    apply Hhour. reflexivity.
  - destruct (determine_status_rule t0 t0) as (_ & _ & _ & _ & Hzero & _).
    apply Hzero. reflexivity.
  - destruct (determine_status_rule t0 (t0 + 60)) as (_ & _ & _ & _ & _ & Hfuture).
    apply Hfuture. reflexivity.
Defined.

(** C2 as stated fails: at an age of exactly half an hour the answer is not
    idle. *)
Lemma half_hour_is_not_idle :
  (inject_Z ((t0 + 1800) - t0) / 3600 == 1 # 2)%Q
  ∧ determine_status (t0 + 1800) t0 ≠ "idle".
Proof. split; [reflexivity|]. by vm_compute. Qed.

Lemma determine_status_half_hour_witness :
  determine_status (t0 + 1800) t0 = "moving".
Proof. apply determine_status_half_hour. reflexivity. Defined.

Lemma filter_update_merges_witness :
  receive (Json (PDict update_car_X)) march
  = {| car_filter := PStr "X";
       date_from := PStr "2023-03-01";
       date_to := PStr "2023-03-31" |}.
Proof.
  destruct (filter_update_merges update_car_X {[ "car" := PStr "X" ]} march)
    as (_ & _ & _ & _ & _ & _ & HX); [reflexivity|].
  destruct (HX eq_refl) as (Hcar & Hfrom & Hto).
  destruct (receive _ march) as [c f t]. simpl in *. by rewrite Hcar, Hfrom, Hto.
Defined.

Lemma malformed_message_ignored_witness :
  receive (recv not_an_update) march = march
  ∧ ∃ push, cycle not_an_update march = (march, Some push, Streaming).
Proof.
  destruct (malformed_message_ignored not_an_update [] march)
    as (Hst & push & _ & Hcycle & _).
  - apply malformed_json. reflexivity.
  - reflexivity.
  - split; [exact Hst|]. by exists push.
Defined.

Lemma null_clears_filter_witness :
  car_filter (receive (Json (PDict update_car_null)) march) = PNone
  ∧ date_from (receive (Json (PDict update_car_null)) march) = PStr "2023-03-01".
Proof.
  destruct (null_clears_filter update_car_null {[ "car" := PNone ]} march)
    as (Hcar & _ & _ & _ & Hfrom & _); [reflexivity|].
  split; [by apply Hcar|]. by rewrite Hfrom.
Defined.





End Checks.

Module MoreChecks.
Import Utc Examples MoreExamples.

Example thresholds_in_seconds :
  determine_status (t0 + 1801) t0 = "idle" ∧ determine_status (t0 + 3601) t0 = "stopped".
Proof. by vm_compute. Qed.

Example listing_of_fleet :
  ∃ cars, get_all_vehicles (Connected fleet) = Ok cars ∧ cars ≡ₚ ["T1"; "T2"].
Proof. eexists. split; [reflexivity|]. apply perm_swap. Qed.

Example keywords_from_environment :
  connect_arguments (db_params environ_keywords)
  = Keywords {[ "dbname" := "fleet"; "user" := "tracker" ]}.
Proof. by vm_compute. Qed.

Example untrimmed_single_id :
  get_truck_locations (Connected fleet) t0 (PStr " T1") PNone PNone = [].
Proof. by vm_compute. Qed.

Lemma determine_status_monotone_witness :
  determine_status (t0 + 60) (t0 - 4000) = "stopped".
Proof.
  destruct (determine_status_monotone t0 (t0 + 60) (t0 - 4000) (t0 - 4000))
    as (Hstopped & _); [by vm_compute|].
  apply Hstopped. reflexivity.
Defined.

Lemma loop_streams_witness :
  length (loop [quiet (Connected fleet); quiet (Failing TypeError)] march).1 = 2%nat
  ∧ (loop [quiet (Connected fleet); quiet (Failing TypeError)] march).2 = Streaming.
Proof.
  apply (loop_streams [quiet (Connected fleet); quiet (Failing TypeError)] march).
  by repeat constructor.
Defined.

Lemma loop_closes_at_failed_send_witness :
  length (loop ([quiet (Connected fleet)] ++ hangup :: [quiet (Connected fleet)])
            march).1 = 1%nat.
Proof.
  apply (loop_closes_at_failed_send [quiet (Connected fleet)]
           [quiet (Connected fleet)] hangup march).
  - by repeat constructor.
  - reflexivity.
Defined.

Lemma loop_last_push_witness :
  ∃ push,
    (loop ([follow_X] ++ [quiet (Connected fleet)]) march).1
    = (loop [follow_X] march).1 ++ [push]
    ∧ push_features push =
        get_truck_locations (Connected fleet) t0
          (PStr "X") (PStr "2023-03-01") (PStr "2023-03-31").
Proof.
  apply (loop_last_push [follow_X] (quiet (Connected fleet)) march).
  by repeat constructor.
Defined.

Lemma first_push_is_get_trucks_witness :
  ∃ push pushes,
    (websocket_endpoint (Some "T1") None None [quiet (Connected fleet)]).1
    = push :: pushes
    ∧ push_features push =
        collection_features (get_trucks (Connected fleet) t0 (Some "T1") None None).
Proof.
  apply (first_push_is_get_trucks (Some "T1") None None (quiet (Connected fleet)) []);
    reflexivity.
Defined.

Lemma receive_two_updates_witness :
  receive (Json (PDict update_car_null)) (receive (Json (PDict update_car_X)) march)
  = receive (Json (PDict {[ "filters" :=
                              PDict ({[ "car" := PNone ]} ∪ {[ "car" := PStr "X" ]}) ]}))
      march.
Proof.
  apply (receive_two_updates update_car_X update_car_null); reflexivity.
Defined.

Lemma car_filter_not_string_witness :
  get_truck_locations (Connected fleet) t0 (PInt 5) PNone PNone = [].
Proof.
  apply (car_filter_not_string (PInt 5) (Connected fleet) t0 PNone PNone);
    intros; discriminate.
Defined.

Lemma date_filter_rejected_witness :
  get_truck_locations (Connected fleet) t0 PNone (PStr "2023-02-30") PNone = []
  ∧ get_truck_locations (Connected fleet) t0 PNone PNone (PInt 20231114) = [].
Proof.
  split.
  - apply (date_filter_rejected (Connected fleet) t0 PNone (PStr "2023-02-30") PNone).
    left. split; [reflexivity|]. right. exists "2023-02-30". split; reflexivity.
  - apply (date_filter_rejected (Connected fleet) t0 PNone PNone (PInt 20231114)).
    right. split; [reflexivity|]. left. split; intros; discriminate.
Defined.

Lemma get_trucks_hides_failure_witness :
  get_trucks (Connected fleet) t0 None None (Some "2023-02-30")
  = {| collection_type := "FeatureCollection"; collection_features := [] |}
  ∧ ∃ e, get_truck_history (Connected fleet) "T1" None (Some "2023-02-30")
         = Raise (HTTPException 500 ("Database error: " +:+ exn_name e)).
Proof.
  destruct (get_trucks_hides_failure (Connected fleet) t0 None None
              (Some "2023-02-30") "T1") as [Htrucks Hhistory].
  - right. right. exists "2023-02-30".
    split_and!; [reflexivity|discriminate|reflexivity].
  - split; [exact Htrucks|exact Hhistory].
Defined.

Lemma single_id_exact_witness :
  (length (get_truck_locations (Connected fleet) t0 (PStr "T1") PNone PNone) ≤ 1)%nat.
Proof.
  apply (single_id_exact "T1" (Connected fleet) t0 PNone PNone);
    [discriminate|reflexivity].
Defined.

Lemma comma_filter_ids_witness :
  ∃ ids,
    vehicle_ids (PStr " T1 ,, T2") = Ok ids
    ∧ Forall token ids
    ∧ (ids ≠ [] →
       ∀ f, In f (get_truck_locations (Connected fleet) t0 (PStr " T1 ,, T2")
                    PNone PNone) →
            In (p_id (properties f)) ids).
Proof.
  apply (comma_filter_ids " T1 ,, T2" (Connected fleet) t0 PNone PNone).
  reflexivity.
Defined.

Lemma comma_filter_set_witness :
  get_truck_locations (Connected fleet) t0 (PStr "T1,T2") PNone PNone
  = get_truck_locations (Connected fleet) t0 (PStr " T2 , T1,T1") PNone PNone.
Proof.
  apply (comma_filter_set "T1,T2" " T2 , T1,T1" (Connected fleet) t0 PNone PNone);
    [reflexivity..|].
  intros t. vm_compute. tauto.
Defined.

Lemma join_then_parse_witness :
  vehicle_ids (PStr "T1, T2, T 3") = Ok ["T1"; "T2"; "T 3"].
Proof.
  apply (join_then_parse ["T1"; "T2"; "T 3"]).
  - simpl. lia.
  - repeat constructor; discriminate.
Defined.

Lemma date_bounds_inclusive_witness :
  In "T1" (map (λ f, p_id (properties f))
             (get_truck_locations (Connected fleet) t0
                PNone (PStr "2023-11-14") (PStr "2023-11-14"))).
Proof.
  apply (date_bounds_inclusive fleet t0 "2023-11-14" "2023-11-14" 19675 19675);
    try discriminate; try reflexivity.
  - intros r Hr _. by apply Checks.fleet_renders.
  - exists (row "T1" (t0 - 100)). split_and!; [|reflexivity|by vm_compute..].
    simpl. tauto.
Defined.

Lemma history_rows_sorted_witness :
  StronglySorted (λ a b, timestamp b ≤ timestamp a) history_T1
  ∧ Forall (λ r, car r = "T1") history_T1.
Proof.
  destruct (history_rows_sorted (Connected fleet) "T1" None None history_T1)
    as (Hsorted & Hcar & _); [reflexivity|].
  by split.
Defined.

Lemma history_complete_witness :
  ∃ rows,
    get_truck_history (Connected fleet) "T1" None (Some "") = Ok rows
    ∧ rows ≡ₚ List.filter (Sql.same_car "T1") fleet.
Proof.
  apply (history_complete fleet "T1" None (Some ""));
    [by left|by right|reflexivity|].
  intros r Hr _. by apply Checks.fleet_renders.
Defined.

Lemma vehicles_match_snapshot_witness :
  ∃ vehicles,
    get_all_vehicles (Connected fleet) = Ok vehicles
    ∧ map (λ f, p_id (properties f))
        (get_truck_locations (Connected fleet) t0 PNone PNone PNone)
      ≡ₚ vehicles.
Proof.
  apply (vehicles_match_snapshot fleet t0). apply Checks.fleet_renders.
Defined.

Lemma feature_renders_row_witness :
  p_status (properties feature_T2)
  = determine_status t0 (p_timestamp (properties feature_T2))
  ∧ coordinates (geometry feature_T2) = [74 # 1; 31 # 1].
Proof.
  destruct (feature_renders_row (Connected fleet) t0 PNone PNone PNone feature_T2)
    as (_ & _ & Hstatus & _ & table & r & _ & _ & _ & _ & _ & Hcoord).
  - vm_compute. tauto.
  - split; [exact Hstatus|reflexivity].
Defined.

Lemma update_reads_three_members_witness :
  receive (Json (PDict {[ "filters" := PDict {[ "car" := PStr "X"; "zoom" := PInt 7 ]};
                          "id" := PInt 1 ]})) march
  = receive (Json (PDict update_car_X)) march.
Proof.
  apply (update_reads_three_members _ update_car_X
           {[ "car" := PStr "X"; "zoom" := PInt 7 ]} {[ "car" := PStr "X" ]});
    reflexivity.
Defined.

Lemma snapshot_is_history_head_witness :
  p_id (properties feature_T1) = "T1"
  ∧ p_timestamp (properties feature_T1) = timestamp (row "T1" (t0 - 100)).
Proof.
  apply (snapshot_is_history_head fleet t0 "T1" history_T1 ltac:(discriminate)
           eq_refl eq_refl feature_T1).
  vm_compute. tauto.
Defined.

End MoreChecks.
